(** * spPaint3d: the data classes of [scripts/sppaint3d/gui.py]

    A shallow embedding of [sp3dToolOption], [sp3dTransform] and
    [sp3dObjectList], with the properties their callers rely on.

    Conventions of the embedding:
    - a Python [dict] is an association list in insertion order (the
      iteration order of [keys()]); item assignment replaces in place or
      appends, [del] removes;
    - a call that may raise returns an [outcome];
    - a Python [float] is an exact rational, and every operation answers
      it in lowest terms;
    - the Maya scene ([maya.cmds]), the option store and the draws of the
      pseudo-random generator are explicit arguments. *)

From Stdlib Require Import ZArith QArith Qround Lia.
From stdpp Require Import gmap strings list sorting.

Local Open Scope Z_scope.

(** ** Outcomes: a value, or a raised exception named by its class *)

Inductive outcome (A : Type) : Type :=
  | Ok (a : A)
  | Raise (exn : string).
Arguments Ok {A} a.
Arguments Raise {A} exn.

Definition obind {A B} (m : outcome A) (k : A -> outcome B) : outcome B :=
  match m with
  | Ok a => k a
  | Raise e => Raise e
  end.

Notation "'do' x <- m ; k" := (obind m (fun x => k))
  (at level 10, x name, m at level 100, k at level 200).

Definition returns {A} (m : outcome A) : Prop := exists a, m = Ok a.

(** ** Python dictionaries with string keys *)

Module PyDict.
Section Dict.
Context {V : Type}.

(** [list(d.keys())] *)
Definition keys (d : list (string * V)) : list string := d.*1.

(** [k in d] *)
Definition mem (k : string) (d : list (string * V)) : bool :=
  bool_decide (k ∈ keys d).

(** [d[k]] as a partial function *)
Fixpoint get (k : string) (d : list (string * V)) : option V :=
  match d with
  | [] => None
  | (k', v) :: d' => if decide (k = k') then Some v else get k d'
  end.

(** [d[k]], raising [KeyError] on a missing key *)
Definition getitem (k : string) (d : list (string * V)) : outcome V :=
  match get k d with
  | Some v => Ok v
  | None => Raise "KeyError"
  end.

(** [d[k] = v]: an existing key keeps its position *)
Fixpoint set (k : string) (v : V) (d : list (string * V)) : list (string * V) :=
  match d with
  | [] => [(k, v)]
  | (k', v') :: d' =>
      if decide (k = k') then (k, v) :: d' else (k', v') :: set k v d'
  end.

(** [del d[k]] *)
Fixpoint remove (k : string) (d : list (string * V)) : list (string * V) :=
  match d with
  | [] => []
  | (k', v') :: d' =>
      if decide (k = k') then d' else (k', v') :: remove k d'
  end.

Definition delitem (k : string) (d : list (string * V)) : outcome (list (string * V)) :=
  if mem k d then Ok (remove k d) else Raise "KeyError".

(** The keys of a dictionary are pairwise distinct. *)
Definition wf (d : list (string * V)) : Prop := NoDup (keys d).
End Dict.
End PyDict.

(** [l[j]] for a Python integer index: negative indices count from the end,
    an index out of range raises [IndexError]. *)
Definition py_index {A} (l : list A) (j : Z) : outcome A :=
  let n := Z.of_nat (length l) in
  let j' := if decide (j < 0) then j + n else j in
  if decide (0 <= j' < n) then
    match l !! Z.to_nat j' with
    | Some a => Ok a
    | None => Raise "IndexError"
    end
  else Raise "IndexError".

(** [a % b] on Python integers. *)
Definition py_mod (a b : Z) : outcome Z :=
  if decide (b = 0) then Raise "ZeroDivisionError" else Ok (a `mod` b).

(** ** The Maya scene, as far as [gui.py] queries it *)

(** Every field is one [maya.cmds] query; a query on a node that does not
    exist raises.  [listRelatives] answers [None] when it finds nothing. *)
Record scene : Type := {
  (** [cmds.objectType(node)] *)
  objectType : string -> outcome string;
  (** [cmds.nodeType(node)] *)
  nodeType : string -> outcome string;
  (** [cmds.listRelatives(node, children=True, shapes=True)] *)
  childShapes : string -> outcome (option (list string));
  (** [cmds.listRelatives(node, parent=True)] *)
  parents : string -> outcome (option (list string));
  (** [cmds.listRelatives(node, fullPath=True, shapes=True)] *)
  shapesFullPath : string -> outcome (option (list string));
  (** [cmds.listRelatives(node, path=True, shapes=True)] *)
  shapesPath : string -> outcome (option (list string));
  (** [cmds.objExists(ref)], on the stored reference *)
  objExists : option string -> bool
}.

(** [x or []] for the answer of [listRelatives] *)
Definition or_empty (x : option (list string)) : list string :=
  match x with
  | Some l => l
  | None => []
  end.

(** [getDAGPath(node, depth)].  A falsy [dag] is returned as it is; Maya
    never answers an empty list, so the result is a path or [None]. *)
Definition getDAGPath (sc : scene) (node : string) (depth : bool)
  : outcome (option string) :=
  do nodetype <- objectType sc node;
  do up <-
    (if decide (nodetype <> "transform") then
       do tempdag <- parents sc node;
       match or_empty tempdag with
       | [p] => do t <- objectType sc p; Ok (p, t)
       | _ => Ok (node, nodetype)
       end
     else Ok (node, nodetype));
  let '(node, nodetype) := up in
  do dag <-
    (if decide (nodetype = "transform") then
       do childlist <- childShapes sc node;
       match or_empty childlist with
       | [_] => if depth then shapesFullPath sc node else shapesPath sc node
       | _ => Ok None
       end
     else Ok None);
  match dag with
  | Some (d :: _) => Ok (Some d)
  | _ => Ok None
  end.

(** ** [sp3derror] *)

Record sp3derror : Type := {
  error : string;
  ui : string
}.

(** [raiseError(self, newerror)]: the text field of the window is outside
    the model, the stored message is kept. *)
Definition raiseError (h : sp3derror) (newerror : string) : sp3derror :=
  {| error := newerror; ui := ui h |}.

(** A call [h.raiseError(a1, ..., an)] with positional arguments: the method
    takes exactly one argument besides [self], any other number of
    arguments is a [TypeError] raised before the body runs. *)
Definition call_raiseError (h : sp3derror) (args : list (option string))
  : outcome sp3derror :=
  match args with
  | [Some newerror] => Ok (raiseError h newerror)
  | _ => Raise "TypeError"
  end.

(** ** [sp3dObjectList] *)

Module ObjectList.

(** One value of the dictionary: [(fullDAGPath, activation, proba, align)] *)
Record entry : Type := {
  dag : option string;
  activation : bool;
  proba : Q;
  align : string
}.

Record sp3dObjectList : Type := {
  obj : list (string * entry);
  i : Z;
  auth : list string;
  errorHandle : option sp3derror
}.

Definition with_obj (self : sp3dObjectList) (d : list (string * entry)) :=
  {| obj := d; i := i self; auth := auth self;
     errorHandle := errorHandle self |}.
Definition with_i (self : sp3dObjectList) (n : Z) :=
  {| obj := obj self; i := n; auth := auth self;
     errorHandle := errorHandle self |}.
Definition with_errorHandle (self : sp3dObjectList) (h : option sp3derror) :=
  {| obj := obj self; i := i self; auth := auth self; errorHandle := h |}.

(** The class attribute [authType] *)
Definition authType : list (string * list string) :=
  [ ("default", ["mesh"]);
    ("source", ["mesh"; "locator"]);
    ("target", ["mesh"]) ].

(** [__init__(self, authorized='target', errorHandle=None)] *)
Definition init (authorized : string) (errorHandle : option sp3derror)
  : outcome sp3dObjectList :=
  do a <- PyDict.getitem authorized authType;
  Ok {| obj := []; i := 0; auth := a; errorHandle := errorHandle |}.

Definition keys (self : sp3dObjectList) : list string := PyDict.keys (obj self).

(** The loop of [validateObjects]; the first component lists the
    references handed to [cmds.objExists], in order. *)
Fixpoint validate_loop (sc : scene) (self : sp3dObjectList) (ks : list string)
  : list (option string) * outcome bool :=
  match ks with
  | [] => ([], Ok true)
  | k :: ks' =>
      match PyDict.getitem k (obj self) with
      | Raise e => ([], Raise e)
      | Ok data =>
          let reported :=
            match errorHandle self with
            | Some h =>
                do _ <- call_raiseError h
                          [Some "INFO: validating object: %s"; dag data];
                Ok tt
            | None => Ok tt
            end in
          match reported with
          | Raise e => ([], Raise e)
          | Ok _ =>
              if objExists sc (dag data) then
                let '(seen, r) := validate_loop sc self ks' in
                (dag data :: seen, r)
              else ([dag data], Ok false)
          end
      end
  end.

(** [validateObjects(self)]: the references examined, and the returned
    value together with the registry afterwards. *)
Definition validateObjects (sc : scene) (self : sp3dObjectList)
  : list (option string) * outcome (sp3dObjectList * bool) :=
  if decide (length (keys self) = 0%nat) then ([], Ok (self, false))
  else
    let '(seen, r) := validate_loop sc self (keys self) in
    (seen,
     do b <- r;
     if b then
       match errorHandle self with
       | Some h =>
           do h' <- call_raiseError h [Some "INFO: Everything checks out"];
           Ok (with_errorHandle self (Some h'), true)
       | None => Ok (self, true)
       end
     else Ok (self, false)).

(** [alreadyExists(self, obj)] *)
Definition alreadyExists (self : sp3dObjectList) (o : string) : bool :=
  if PyDict.mem o (obj self) then true else false.

Fixpoint hasDuplicate_loop (self : sp3dObjectList) (ks : list string) : bool :=
  match ks with
  | [] => false
  | k :: ks' => if alreadyExists self k then true else hasDuplicate_loop self ks'
  end.

(** [hasDuplicate(self, compareobjlist)] *)
Definition hasDuplicate (self compareobjlist : sp3dObjectList) : bool :=
  hasDuplicate_loop self (keys compareobjlist).

(** What [addObj] returns next to the key: [True], or the reason of the
    refusal. *)
Inductive comment : Type :=
  | Added
  | Reason (msg : string).

Definition msg_exists : string :=
  "Object already exists in the list and can't be added again".
Definition msg_no_child : string :=
  "Object doesn't seem to have any direct child of the proper type".
Definition msg_complex : string :=
  "Does not compute (hierarchy too complex or whatever)".
Definition msg_category : string :=
  "Object doesn't fit any valid category to be added to the list".

Definition mk_entry (d : option string) (activation : bool) (proba : Q)
    (align : string) : entry :=
  {| dag := d; activation := activation; proba := proba; align := align |}.

(** [addObj(self, obj, dagPath, activation, proba, align)]; [dagPath] is
    never read.  The result is the registry afterwards and the returned
    pair. *)
Definition addObj (sc : scene) (self : sp3dObjectList) (o : string)
    (activation : bool) (proba : Q) (align : string)
  : outcome (sp3dObjectList * (option string * comment)) :=
  if alreadyExists self o then Ok (self, (None, Reason msg_exists))
  else
    do objtype <- objectType sc o;
    do objchild <- childShapes sc o;
    if decide (objtype ∈ auth self) then
      do d <- getDAGPath sc o true;
      Ok (with_obj self (PyDict.set o (mk_entry d activation proba align) (obj self)),
          (Some o, Added))
    else if decide (objtype = "transform") then
      match objchild with
      | None => Ok (self, (None, Reason msg_no_child))
      | Some [c] =>
          do ctype <- nodeType sc c;
          if decide (ctype ∈ auth self) then
            if alreadyExists self c then Ok (self, (None, Reason msg_exists))
            else
              do d <- getDAGPath sc c true;
              Ok (with_obj self
                    (PyDict.set c (mk_entry d activation proba align) (obj self)),
                  (Some c, Added))
          else Ok (self, (None, Reason msg_complex))
      | Some _ => Ok (self, (None, Reason msg_complex))
      end
    else Ok (self, (None, Reason msg_category)).

(** [delObj(self, obj)] *)
Definition delObj (self : sp3dObjectList) (o : string) : outcome sp3dObjectList :=
  do d <- PyDict.delitem o (obj self);
  Ok (with_obj self d).

(** [clrObj(self)] *)
Definition clrObj (self : sp3dObjectList) : sp3dObjectList :=
  with_i (with_obj self []) 0.

(** [rand.randint(a, b)]: [draw] is the integer the generator state
    stands for; the library maps it into the closed range, and raises on
    an empty range. *)
Definition randint (a b : Z) (draw : Z) : outcome Z :=
  if decide (a <= b) then Ok (a + draw `mod` (b - a + 1))
  else Raise "ValueError".

(** [getRandom(self, weighted=False)] *)
Definition getRandom (self : sp3dObjectList) (weighted : bool) (draw : Z)
  : outcome (option string) :=
  let dkeys := keys self in
  do r <- randint 0 (Z.of_nat (length dkeys) - 1) draw;
  do k <- py_index dkeys r;
  do data <- PyDict.getitem k (obj self);
  Ok (dag data).

(** [getNext(self)] *)
Definition getNext (self : sp3dObjectList)
  : outcome (sp3dObjectList * option string) :=
  let dkeys := merge_sort String.le (keys self) in
  do j <- py_mod (i self) (Z.of_nat (length dkeys));
  do k <- py_index dkeys j;
  do data <- PyDict.getitem k (obj self);
  Ok (with_i self (i self + 1), dag data).

(** The registry was built for one of the three roles of [authType]. *)
Definition role_auth (self : sp3dObjectList) : Prop :=
  auth self ∈ map snd authType.

(** A child shape of an authorized type. *)
Definition qualifies (sc : scene) (self : sp3dObjectList) (c : string) : bool :=
  match nodeType sc c with
  | Ok t => bool_decide (t ∈ auth self)
  | Raise _ => false
  end.

(** The key [addObj] files a candidate under: the candidate itself when
    its type is authorized, the only child shape of a transform when that
    shape is of an authorized type. *)
Inductive resolves (sc : scene) (self : sp3dObjectList) (o : string)
  : string -> Prop :=
  | resolves_self t :
      objectType sc o = Ok t -> t ∈ auth self -> resolves sc self o o
  | resolves_child c t :
      objectType sc o = Ok "transform" ->
      "transform" ∉ auth self ->
      childShapes sc o = Ok (Some [c]) ->
      nodeType sc c = Ok t ->
      t ∈ auth self ->
      resolves sc self o c.

(** [n] consecutive calls of [getNext], with the references returned. *)
Fixpoint calls_getNext (n : nat) (self : sp3dObjectList)
  : outcome (sp3dObjectList * list (option string)) :=
  match n with
  | O => Ok (self, [])
  | S n' =>
      do r <- getNext self;
      do rs <- calls_getNext n' r.1;
      Ok (rs.1, r.2 :: rs.2)
  end.

(** The registry with the activation flag of every entry set by [flag]. *)
Definition with_activation (flag : string -> bool) (self : sp3dObjectList)
  : sp3dObjectList :=
  with_obj self
    (map (fun kv : string * entry =>
            (kv.1, mk_entry (dag kv.2) (flag kv.1) (proba kv.2) (align kv.2)))
         (obj self)).

(** The reference stored under a key ([None] also for an absent key). *)
Definition ref (self : sp3dObjectList) (k : string) : option string :=
  match PyDict.get k (obj self) with
  | Some data => dag data
  | None => None
  end.

(** What [getRandom] answers on the draws [0 .. n-1]. *)
Definition picks (self : sp3dObjectList) (weighted : bool) (n : nat)
  : list (outcome (option string)) :=
  map (fun d => getRandom self weighted (Z.of_nat d)) (seq 0 n).

(** How many of those answers are the reference [r]. *)
Definition hits (r : string) (l : list (outcome (option string))) : nat :=
  length (filter (fun x =>
                    match x with
                    | Ok (Some s) => bool_decide (s = r)
                    | _ => false
                    end = true) l).

(** The key [getNext] reads when the index is [j]. *)
Definition next_key (self : sp3dObjectList) (j : Z) : string :=
  let dkeys := merge_sort String.le (keys self) in
  default "" (dkeys !! Z.to_nat (j `mod` Z.of_nat (length dkeys))).

End ObjectList.

(** ** Python numbers *)

Module PyNum.

(** Round half to even, to an integer. *)
Definition round_half_even (q : Q) : Z :=
  let f := Qfloor q in
  match (q - inject_Z f ?= 1 # 2)%Q with
  | Lt => f
  | Eq => if Z.even f then f else f + 1
  | Gt => f + 1
  end.

Definition pow10 (ndigits : nat) : Q := inject_Z (10 ^ Z.of_nat ndigits).

(** [round(x, ndigits)] on a float (Python 3: ties go to the even digit). *)
Definition round_float (x : Q) (ndigits : nat) : Q :=
  Qred (inject_Z (round_half_even (x * pow10 ndigits)) / pow10 ndigits).

(** [int(x)] on a float: truncation towards zero. *)
Definition trunc (x : Q) : Z := Z.quot (Qnum x) (Zpos (Qden x)).

(** The values an attribute of the tool holds. *)
Inductive pyval : Type :=
  | VNone
  | VBool (b : bool)
  | VInt (z : Z)
  | VFloat (q : Q)
  | VStr (s : string).

(** The values the option store holds: [-iv] integers and [-fv] floats. *)
Inductive optval : Type :=
  | OInt (z : Z)
  | OFloat (q : Q).

(** Equality of representations is decidable. *)
#[global] Instance Q_eq_dec : EqDecision Q.
Proof. solve_decision. Defined.
#[global] Instance pyval_eq_dec : EqDecision pyval.
Proof. solve_decision. Defined.
#[global] Instance optval_eq_dec : EqDecision optval.
Proof. solve_decision. Defined.

Definition is_number (v : pyval) : bool :=
  match v with
  | VBool _ | VInt _ | VFloat _ => true
  | VNone | VStr _ => false
  end.

(** The value of a Python number as a rational ([True] is 1). *)
Definition to_float (v : pyval) : outcome Q :=
  match v with
  | VBool b => Ok (if b then 1 else 0)%Q
  | VInt z => Ok (inject_Z z)
  | VFloat q => Ok q
  | VNone | VStr _ => Raise "TypeError"
  end.

Definition optval_Q (v : optval) : Q :=
  match v with
  | OInt z => inject_Z z
  | OFloat q => q
  end.

(** [stored != value] between a stored number and a Python value. *)
Definition py_ne (stored : optval) (value : pyval) : bool :=
  match to_float value with
  | Ok q => negb (Qeq_bool (optval_Q stored) q)
  | Raise _ => true
  end.

(** [a == b] on attribute values. *)
Definition py_eq (a b : pyval) : bool :=
  match a, b with
  | VNone, VNone => true
  | VStr s, VStr t => bool_decide (s = t)
  | _, _ =>
      match to_float a, to_float b with
      | Ok p, Ok q => Qeq_bool p q
      | _, _ => false
      end
  end.

(** [bool(x)] on a stored number. *)
Definition bool_of_optval (v : optval) : bool :=
  match v with
  | OInt z => negb (z =? 0)
  | OFloat q => negb (Qeq_bool q 0)
  end.

(** [round(x, 2)] on a stored number: an integer is returned unchanged. *)
Definition round2_of_optval (v : optval) : pyval :=
  match v with
  | OInt z => VInt z
  | OFloat q => VFloat (round_float q 2)
  end.

(** [round(v, 2)] on an attribute value. *)
Definition py_round2 (v : pyval) : outcome pyval :=
  match v with
  | VBool b => Ok (VInt (if b then 1 else 0))
  | VInt z => Ok (VInt z)
  | VFloat q => Ok (VFloat (round_float q 2))
  | VNone | VStr _ => Raise "TypeError"
  end.

Section Int.
(** [int(s)] on a string is the parser of the Python runtime. *)
Variable str_to_int : string -> outcome Z.

(** [int(v)] *)
Definition py_int (v : pyval) : outcome Z :=
  match v with
  | VBool b => Ok (if b then 1 else 0)
  | VInt z => Ok z
  | VFloat q => Ok (trunc q)
  | VStr s => str_to_int s
  | VNone => Raise "TypeError"
  end.
End Int.

End PyNum.

(** ** [sp3dToolOption] *)

Module ToolOption.
Import PyNum.

Definition spPaint3dVersion : pyval := VFloat 2022.

(** [sp3dOptionVars]: optionVar name, (type, default value, attribute) *)
Definition sp3dOptionVars : list (string * (string * pyval * string)) :=
  [ ("sp3dTransformRotate", ("iv", VInt 1, "transformRotate"));
    ("sp3dTransformScale", ("iv", VInt 1, "transformScale"));
    ("sp3dTransformScaleUniform", ("iv", VInt 1, "transformScaleUniform"));
    ("sp3dInstance", ("iv", VInt 0, "instance"));
    ("sp3dRandom", ("iv", VInt 1, "random"));
    ("sp3dAlign", ("iv", VInt 1, "align"));
    ("sp3dPaintFlux", ("iv", VInt 1, "paintFlux"));
    ("sp3dRampFX", ("fv", VInt 0, "rampFX"));
    ("sp3dRealTimeRampFX", ("iv", VInt 0, "realTimeRampFX"));
    ("sp3dPaintTimer", ("fv", VFloat (1 # 20), "paintTimer"));
    ("sp3dPaintDistance", ("fv", VInt 10, "paintDistance"));
    ("sp3dPaintOffset", ("fv", VInt 0, "upOffset"));
    ("sp3dPlaceRotate", ("fv", VInt 45, "placeRotate"));
    ("sp3dContinuousTransform", ("iv", VInt 0, "continuousTransform"));
    ("sp3dJitter", ("iv", VInt 0, "jitter"));
    ("sp3dPreserveInConn", ("iv", VInt 0, "preserveConn"));
    ("sp3dSmoothNormal", ("iv", VInt 1, "smoothNormal"));
    ("sp3dSetupHierarchy", ("iv", VInt 0, "hierarchy"));
    ("sp3dGroup", ("fv", VInt 0, "group"));
    ("sp3dVersion", ("fv", spPaint3dVersion, "version")) ].

(** The attributes [__init__] assigns before it looks at the store. *)
Definition init_attrs : gmap string pyval :=
  list_to_map
  [ ("transformRotate", VBool true);
    ("transformScale", VBool true);
    ("transformScaleUniform", VBool true);
    ("instance", VBool false);
    ("random", VBool true);
    ("align", VBool true);
    ("paintFlux", VBool true);
    ("jitter", VBool false);
    ("rampFX", VInt 0);
    ("realTimeRampFX", VBool false);
    ("paintTimer", VFloat (1 # 20));
    ("paintDistance", VInt 10);
    ("placeRotate", VInt 45);
    ("continuousTransform", VBool false);
    ("upOffset", VInt 0);
    ("preserveConn", VBool false);
    ("smoothNormal", VBool false);
    ("hierarchy", VBool false);
    ("group", VInt 0);
    ("groupID", VNone);
    ("version", spPaint3dVersion) ].

(** [cmds.optionVar(exists=name)] *)
Definition optionVar_exists (store : gmap string optval) (name : string) : bool :=
  bool_decide (is_Some (store !! name)).

(** [cmds.optionVar(q=name)]; Maya answers 0 for a name it does not hold. *)
Definition optionVar_q (store : gmap string optval) (name : string) : optval :=
  default (OInt 0) (store !! name).

(** [cmds.optionVar(iv=(name, value))] *)
Definition optionVar_iv (store : gmap string optval) (name : string) (value : pyval)
  : outcome (gmap string optval) :=
  match value with
  | VInt z => Ok (<[name := OInt z]> store)
  | VBool b => Ok (<[name := OInt (if b then 1 else 0)]> store)
  | _ => Raise "TypeError"
  end.

(** [cmds.optionVar(fv=(name, value))]: any Python number is taken as a
    float. *)
Definition optionVar_fv (store : gmap string optval) (name : string) (value : pyval)
  : outcome (gmap string optval) :=
  do q <- to_float value;
  Ok (<[name := OFloat q]> store).

(** The loop of [checkVars] over the rows of the table. *)
Fixpoint checkVars_loop (store : gmap string optval)
    (rows : list (string * (string * pyval * string))) : bool :=
  match rows with
  | [] => true
  | (name, (_, value, _)) :: rows' =>
      if negb (optionVar_exists store name) then false
      else if bool_decide (name = "sp3dVersion")
              && py_ne (optionVar_q store name) value then false
      else checkVars_loop store rows'
  end.

(** [checkVars(self)] *)
Definition checkVars (store : gmap string optval) : bool :=
  checkVars_loop store sp3dOptionVars.

Fixpoint loadVars_loop (store : gmap string optval)
    (rows : list (string * (string * pyval * string)))
    (self : gmap string pyval) : gmap string pyval :=
  match rows with
  | [] => self
  | (name, (type, _, varname)) :: rows' =>
      let self' :=
        if decide (type = "iv") then
          <[varname := VBool (bool_of_optval (optionVar_q store name))]> self
        else if decide (type = "fv") then
          <[varname := round2_of_optval (optionVar_q store name)]> self
        else self in
      loadVars_loop store rows' self'
  end.

(** [loadVars(self)] *)
Definition loadVars (self : gmap string pyval) (store : gmap string optval)
  : gmap string pyval :=
  loadVars_loop store sp3dOptionVars self.

Fixpoint resetVars_loop (rows : list (string * (string * pyval * string)))
    (store : gmap string optval) : outcome (gmap string optval) :=
  match rows with
  | [] => Ok store
  | (name, (type, value, _)) :: rows' =>
      do store' <-
        (if decide (type = "iv") then optionVar_iv store name value
         else if decide (type = "fv") then optionVar_fv store name value
         else Ok store);
      resetVars_loop rows' store'
  end.

(** [resetVars(self)]: the attributes and the store afterwards. *)
Definition resetVars (self : gmap string pyval) (store : gmap string optval)
  : outcome (gmap string pyval * gmap string optval) :=
  do store' <- resetVars_loop sp3dOptionVars store;
  Ok (loadVars self store', store').

(** The columns of a row of [sp3dOptionVars]. *)
Definition row : Type := string * (string * pyval * string).
Definition row_name (r : row) : string := r.1.
Definition row_type (r : row) : string := r.2.1.1.
Definition row_value (r : row) : pyval := r.2.1.2.
Definition row_var (r : row) : string := r.2.2.

(** One pass over the rows that writes, for each row, the value [f] gives
    for it under the name of the row (nothing for [None]). *)
Fixpoint write_rows (f : row -> outcome (option optval)) (rows : list row)
    (store : gmap string optval) : outcome (gmap string optval) :=
  match rows with
  | [] => Ok store
  | r :: rows' =>
      do w <- f r;
      write_rows f rows'
        (match w with Some o => <[row_name r := o]> store | None => store end)
  end.

(** What [resetVars] writes for a row. *)
Definition reset_value (r : row) : outcome (option optval) :=
  if decide (row_type r = "iv") then
    match row_value r with
    | VInt z => Ok (Some (OInt z))
    | VBool b => Ok (Some (OInt (if b then 1 else 0)))
    | _ => Raise "TypeError"
    end
  else if decide (row_type r = "fv") then
    do q <- to_float (row_value r); Ok (Some (OFloat q))
  else Ok None.

(** What [loadVars] assigns for a row. *)
Definition load_value (store : gmap string optval) (r : row) : option pyval :=
  if decide (row_type r = "iv") then
    Some (VBool (bool_of_optval (optionVar_q store (row_name r))))
  else if decide (row_type r = "fv") then
    Some (round2_of_optval (optionVar_q store (row_name r)))
  else None.

Section Commit.
Variable str_to_int : string -> outcome Z.

(** [self.__dict__[varname]] *)
Definition attr (self : gmap string pyval) (varname : string) : outcome pyval :=
  match self !! varname with
  | Some v => Ok v
  | None => Raise "KeyError"
  end.

Fixpoint commitVars_loop (self : gmap string pyval)
    (rows : list (string * (string * pyval * string)))
    (store : gmap string optval) : outcome (gmap string optval) :=
  match rows with
  | [] => Ok store
  | (name, (type, _, varname)) :: rows' =>
      do store' <-
        (if decide (type = "iv") then
           do v <- attr self varname;
           do n <- py_int str_to_int v;
           optionVar_iv store name (VInt n)
         else if decide (type = "fv") then
           do v <- attr self varname;
           optionVar_fv store name v
         else Ok store);
      commitVars_loop self rows' store'
  end.

(** [commitVars(self)]: the store afterwards. *)
Definition commitVars (self : gmap string pyval) (store : gmap string optval)
  : outcome (gmap string optval) :=
  commitVars_loop self sp3dOptionVars store.

(** [__init__(self)]: the dialog and the window preferences are outside
    the model. *)
Definition init (store : gmap string optval)
  : outcome (gmap string pyval * gmap string optval) :=
  let self := init_attrs in
  if checkVars store then Ok (loadVars self store, store)
  else
    do store' <- commitVars self store;
    Ok (self, store').

(** [commitVars] followed by [loadVars] *)
Definition commit_load (self : gmap string pyval) (store : gmap string optval)
  : outcome (gmap string pyval * gmap string optval) :=
  do store' <- commitVars self store;
  Ok (loadVars self store', store').
(** What [commitVars] writes for a row. *)
Definition commit_value (self : gmap string pyval) (r : row)
  : outcome (option optval) :=
  if decide (row_type r = "iv") then
    do v <- attr self (row_var r);
    do n <- py_int str_to_int v;
    Ok (Some (OInt n))
  else if decide (row_type r = "fv") then
    do v <- attr self (row_var r);
    do q <- to_float v;
    Ok (Some (OFloat q))
  else Ok None.

(** The value an attribute takes through [commitVars] and [loadVars]:
    [bool(int(v))] on an 'iv' row, the float [v] rounded to two places on an
    'fv' row. *)
Definition projection (type : string) (v : pyval) : outcome pyval :=
  if decide (type = "iv") then
    do n <- py_int str_to_int v; Ok (VBool (negb (n =? 0)))
  else
    do q <- to_float v; Ok (VFloat (round_float q 2)).
End Commit.

End ToolOption.

(** ** [sp3dTransform] *)

Module Transform.
Import PyNum.

(** The generator behind [rand]: the values [random()] will answer, and
    how many have been consumed. *)
Record rng : Type := {
  stream : nat -> Q;
  pos : nat
}.

(** [rand.random()] *)
Definition random (g : rng) : Q * rng :=
  (stream g (pos g), {| stream := stream g; pos := S (pos g) |}).

(** [rand.uniform(a, b)], which is [a + (b - a) * random()] *)
Definition uniform (a b : Q) (g : rng) : Q * rng :=
  let '(u, g') := random g in
  (Qred (a + (b - a) * u), g').

Definition range : Type := Q * Q.

Record sp3dTransform : Type := {
  rotate : range * range * range;
  scale : range * range * range;
  uJitter : range;
  vJitter : range
}.

(** [__init__] with its default arguments *)
Definition init_default : sp3dTransform :=
  {| rotate := ((0, 0), (0, 0), (0, 0))%Q;
     scale := ((1, 1), (1, 1), (1, 1))%Q;
     uJitter := (0, 0)%Q;
     vJitter := (0, 0)%Q |}.

(** [getRandomRotate(self)] *)
Definition getRandomRotate (self : sp3dTransform) (g : rng) : (Q * Q * Q) * rng :=
  let '(x, y, z) := rotate self in
  let '(rx, g1) := uniform (fst x) (snd x) g in
  let '(ry, g2) := uniform (fst y) (snd y) g1 in
  let '(rz, g3) := uniform (fst z) (snd z) g2 in
  ((round_float rx 3, round_float ry 3, round_float rz 3), g3).

(** [getRandomScale(self, uniform)] *)
Definition getRandomScale (self : sp3dTransform) (uniform_flag : bool) (g : rng)
  : (Q * Q * Q) * rng :=
  let '(x, y, z) := scale self in
  if uniform_flag then
    let '(r, g1) := uniform (fst x) (snd x) g in
    let randxyz := round_float r 3 in
    ((randxyz, randxyz, randxyz), g1)
  else
    let '(rx, g1) := uniform (fst x) (snd x) g in
    let '(ry, g2) := uniform (fst y) (snd y) g1 in
    let '(rz, g3) := uniform (fst z) (snd z) g2 in
    ((round_float rx 3, round_float ry 3, round_float rz 3), g3).

End Transform.

(** ** Sample scenes and registries *)

Module Samples.
Import ObjectList.

(** A scene given by two tables: the type of each node, and the shapes
    under each transform. *)
Definition full_path (parent shape : string) : string :=
  "|" +:+ parent +:+ "|" +:+ shape.

Definition type_in (types : list (string * string)) (n : string)
  : outcome string :=
  match PyDict.get n types with
  | Some t => Ok t
  | None => Raise "RuntimeError"
  end.

Definition shapes_in (types : list (string * string))
    (shapes : list (string * list string)) (full : bool) (n : string)
  : outcome (option (list string)) :=
  match PyDict.get n types with
  | None => Raise "ValueError"
  | Some _ =>
      match PyDict.get n shapes with
      | Some (c :: cs) =>
          Ok (Some (map (fun x => if full then full_path n x else x) (c :: cs)))
      | _ => Ok None
      end
  end.

Definition parents_in (types : list (string * string))
    (shapes : list (string * list string)) (n : string)
  : outcome (option (list string)) :=
  match PyDict.get n types with
  | None => Raise "ValueError"
  | Some _ =>
      match filter (fun row : string * list string => n ∈ row.2) shapes with
      | [] => Ok None
      | rows => Ok (Some (map fst rows))
      end
  end.

Definition exists_in (types : list (string * string))
    (shapes : list (string * list string)) (r : option string) : bool :=
  match r with
  | Some path =>
      bool_decide (path ∈ map fst types) ||
      bool_decide
        (path ∈ concat (map (fun row : string * list string =>
                               map (full_path row.1) row.2) shapes))
  | None => false
  end.

Definition scene_of (types : list (string * string))
    (shapes : list (string * list string)) : scene :=
  {| objectType := type_in types;
     nodeType := type_in types;
     childShapes := shapes_in types shapes false;
     parents := parents_in types shapes;
     shapesFullPath := shapes_in types shapes true;
     shapesPath := shapes_in types shapes false;
     objExists := exists_in types shapes |}.

(** [tree] carries one mesh; [rig] a mesh and a curve; [pair] two meshes. *)
Definition garden : scene :=
  scene_of
    [ ("tree", "transform"); ("treeShape", "mesh");
      ("rig", "transform"); ("rigShape", "mesh"); ("rigCurve", "nurbsCurve");
      ("pair", "transform"); ("pairShape", "mesh"); ("pairShapeOrig", "mesh");
      ("rock", "transform"); ("rockShape", "mesh") ]
    [ ("tree", ["treeShape"]);
      ("rig", ["rigShape"; "rigCurve"]);
      ("pair", ["pairShape"; "pairShapeOrig"]);
      ("rock", ["rockShape"]) ].

Definition empty_list (role : list string) : sp3dObjectList :=
  {| obj := []; i := 0; auth := role; errorHandle := None |}.

Definition target0 : sp3dObjectList := empty_list ["mesh"].
Definition source0 : sp3dObjectList := empty_list ["mesh"; "locator"].

Definition entry_of (path : string) (on : bool) (p : Q) : entry :=
  mk_entry (Some path) on p "Up".

(** Two enabled entries weighted 0.1 and 0.9. *)
Definition weighted_pair : sp3dObjectList :=
  with_obj source0
    [ ("treeShape", entry_of "|tree|treeShape" true (1 # 10));
      ("rockShape", entry_of "|rock|rockShape" true (9 # 10)) ].

(** The same registry with its first entry disabled. *)
Definition first_disabled : sp3dObjectList :=
  with_obj source0
    [ ("treeShape", entry_of "|tree|treeShape" false (1 # 10));
      ("rockShape", entry_of "|rock|rockShape" true (9 # 10)) ].

(** Three entries filed out of alphabetical order. *)
Definition three : sp3dObjectList :=
  with_obj source0
    [ ("treeShape", entry_of "|tree|treeShape" true (1 # 2));
      ("rockShape", entry_of "|rock|rockShape" false (1 # 2));
      ("rigShape", entry_of "|rig|rigShape" true (1 # 2)) ].

(** A registry reporting to an error handle. *)
Definition reporting : sp3dObjectList :=
  with_errorHandle
    (with_obj target0 [ ("treeShape", entry_of "|tree|treeShape" true (1 # 2)) ])
    (Some {| error := "spPaint3d"; ui := "uiInfoTextField" |}).
(** The store as [resetVars] leaves it, and one saved by version 2021.0. *)
Definition default_store : gmap string PyNum.optval :=
  list_to_map
    [ ("sp3dTransformRotate", PyNum.OInt 1);
      ("sp3dTransformScale", PyNum.OInt 1);
      ("sp3dTransformScaleUniform", PyNum.OInt 1);
      ("sp3dInstance", PyNum.OInt 0);
      ("sp3dRandom", PyNum.OInt 1);
      ("sp3dAlign", PyNum.OInt 1);
      ("sp3dPaintFlux", PyNum.OInt 1);
      ("sp3dRampFX", PyNum.OFloat 0);
      ("sp3dRealTimeRampFX", PyNum.OInt 0);
      ("sp3dPaintTimer", PyNum.OFloat (1 # 20));
      ("sp3dPaintDistance", PyNum.OFloat 10);
      ("sp3dPaintOffset", PyNum.OFloat 0);
      ("sp3dPlaceRotate", PyNum.OFloat 45);
      ("sp3dContinuousTransform", PyNum.OInt 0);
      ("sp3dJitter", PyNum.OInt 0);
      ("sp3dPreserveInConn", PyNum.OInt 0);
      ("sp3dSmoothNormal", PyNum.OInt 1);
      ("sp3dSetupHierarchy", PyNum.OInt 0);
      ("sp3dGroup", PyNum.OFloat 0);
      ("sp3dVersion", PyNum.OFloat 2022) ].

Definition stored_2021 : gmap string PyNum.optval :=
  <["sp3dVersion" := PyNum.OFloat 2021]> default_store.
(** Attributes after some edits in the window: a ramp mode, a distance with
    more than two decimals, a group name. *)
Definition edited_attrs : gmap string PyNum.pyval :=
  <["paintDistance" := PyNum.VFloat (123456 # 10000)]>
    (<["rampFX" := PyNum.VInt 2]>
       (<["groupID" := PyNum.VStr "spPaint3dOutput"]> ToolOption.init_attrs)).

(** A runtime whose [int()] refuses every string. *)
Definition no_str_to_int (s : string) : outcome Z := Raise "ValueError".
End Samples.

From Stdlib Require Import Lqa Qminmax.

(** ** [sp3dTransform.getRandomJitter] *)

Module Jitter.
Import PyNum Transform.

(** [getRandomJitter(self, space)]: [self.__dict__[space]] is unpacked into
    two values, so the two jitter attributes are the only names that work:
    [rotate] and [scale] hold three values, any other name is no attribute. *)
Definition getRandomJitter (self : sp3dTransform) (space : string) (g : rng)
  : outcome (Q * rng) :=
  if decide (space = "uJitter") then
    let '(r, g') := uniform (uJitter self).1 (uJitter self).2 g in
    Ok (round_float r 3, g')
  else if decide (space = "vJitter") then
    let '(r, g') := uniform (vJitter self).1 (vJitter self).2 g in
    Ok (round_float r 3, g')
  else if decide (space = "rotate" \/ space = "scale") then Raise "ValueError"
  else Raise "KeyError".

(** The contract of [rand.random()]: every value lies in [0, 1). *)
Definition in_unit (g : rng) : Prop :=
  forall n, (0 <= stream g n < 1)%Q.

(** [r] lies between the two ends of the range, in whichever order they
    are given, each rounded to three places. *)
Definition within (rg : range) (r : Q) : Prop :=
  (round_float (Qmin rg.1 rg.2) 3 <= r <= round_float (Qmax rg.1 rg.2) 3)%Q.

(** The generator after [n] more values have been consumed. *)
Definition advanced (n : nat) (g : rng) : rng :=
  {| stream := stream g; pos := (n + pos g)%nat |}.

(** A generator that answers one half every time, and ranges given in
    both orders. *)
Definition halves : rng := {| stream := fun _ => (1 # 2)%Q; pos := 0 |}.

Definition skewed : sp3dTransform :=
  {| rotate := ((0, 90), (180, -180), (5, 5))%Q;
     scale := ((1 # 2, 2), (1, 3), (4, 1))%Q;
     uJitter := (-(1 # 4), 1 # 4)%Q;
     vJitter := (1, 0)%Q |}.

End Jitter.

(** ** [sp3dToolOption.getGroupID] *)

Module GroupID.
Import PyNum.

(** The truth value of an attribute, as [not] and [if] take it. *)
Definition py_truth (v : pyval) : bool :=
  match v with
  | VNone => false
  | VBool b => b
  | VInt z => negb (z =? 0)
  | VFloat q => negb (Qeq_bool q 0)
  | VStr s => negb (bool_decide (s = ""))
  end.

(** [self.name] on an instance with the attributes [self]. *)
Definition getattr (self : gmap string pyval) (name : string) : outcome pyval :=
  match self !! name with
  | Some v => Ok v
  | None => Raise "AttributeError"
  end.

Section Group.
(** The scene as far as groups go, and [cmds.group(empty=True, name=...)]:
    the name of the group it creates and the scene afterwards. *)
Variable S : Type.
Variable cmds_group : string -> S -> string * S.

(** [getGroupID(self)]: the returned value, the attributes and the scene
    afterwards. *)
Definition getGroupID (self : gmap string pyval) (s : S)
  : outcome (pyval * gmap string pyval * S) :=
  do gid <- getattr self "groupID";
  if negb (py_truth gid) then
    let '(name, s') := cmds_group "spPaint3dOutput" s in
    Ok (VStr name, <["groupID" := VStr name]> self, s')
  else Ok (gid, self, s).
End Group.

(** A scene that is the list of its group names; a taken name gets a
    digit appended. *)
Definition make_group (name : string) (s : list string) : string * list string :=
  let n := if bool_decide (name ∈ s) then name +:+ "1" else name in
  (n, s ++ [n]).

End GroupID.

(** ** [spPaint3dWin]: the callbacks of the main window *)

Module Window.
Import PyNum.

Definition spPaint3dGuiID_Height : Z := 740.

(** [getBoolFromMayaControl(uicontrol, version)] *)
Definition getBoolFromMayaControl (uicontrol : pyval) (version : Z) : pyval :=
  if decide (version - 2011 >= 0) then uicontrol
  else if py_eq uicontrol (VStr "true") then VBool true
  else VBool false.



(** The paint or place context lives in [sppaint3d.context]; the window
    only builds it and hands it values.  The model keeps what the window
    handed over last: the class asked for and the four arguments of the
    constructor or of [runtimeUpdate]. *)
Record context : Type := {
  kind : string;
  ctx_uiValues : gmap string pyval;
  ctx_transform : Transform.sp3dTransform;
  ctx_sourceList : ObjectList.sp3dObjectList;
  ctx_targetList : ObjectList.sp3dObjectList
}.

(** The attributes of the window the callbacks read and write; the two
    text scroll lists are kept as their items, in display order.  They are
    the only text scroll lists the window builds.  [notTextList name] is
    the exception of [cmds.textScrollList(self.__dict__[name], ...)] for any
    other name: [KeyError] when the instance has no attribute of that name,
    and otherwise what Maya raises when it is handed the value of that
    attribute, which is no text scroll list. *)
Record spPaint3dWin : Type := {
  mayaVersion : Z;
  errorHandle : sp3derror;
  uiValues : gmap string pyval;
  transform : Transform.sp3dTransform;
  sourceList : ObjectList.sp3dObjectList;
  targetList : ObjectList.sp3dObjectList;
  ctx : option context;
  uiSourceList : list string;
  uiTargetList : list string;
  notTextList : string -> string
}.

Definition with_errorHandle (w : spPaint3dWin) (h : sp3derror) : spPaint3dWin :=
  {| mayaVersion := mayaVersion w; errorHandle := h; uiValues := uiValues w;
     transform := transform w; sourceList := sourceList w;
     targetList := targetList w; ctx := ctx w;
     uiSourceList := uiSourceList w; uiTargetList := uiTargetList w;
     notTextList := notTextList w |}.
Definition with_uiValues (w : spPaint3dWin) (v : gmap string pyval) : spPaint3dWin :=
  {| mayaVersion := mayaVersion w; errorHandle := errorHandle w; uiValues := v;
     transform := transform w; sourceList := sourceList w;
     targetList := targetList w; ctx := ctx w;
     uiSourceList := uiSourceList w; uiTargetList := uiTargetList w;
     notTextList := notTextList w |}.
Definition with_sourceList (w : spPaint3dWin) (l : ObjectList.sp3dObjectList)
  : spPaint3dWin :=
  {| mayaVersion := mayaVersion w; errorHandle := errorHandle w;
     uiValues := uiValues w; transform := transform w; sourceList := l;
     targetList := targetList w; ctx := ctx w;
     uiSourceList := uiSourceList w; uiTargetList := uiTargetList w;
     notTextList := notTextList w |}.
Definition with_targetList (w : spPaint3dWin) (l : ObjectList.sp3dObjectList)
  : spPaint3dWin :=
  {| mayaVersion := mayaVersion w; errorHandle := errorHandle w;
     uiValues := uiValues w; transform := transform w;
     sourceList := sourceList w; targetList := l; ctx := ctx w;
     uiSourceList := uiSourceList w; uiTargetList := uiTargetList w;
     notTextList := notTextList w |}.
Definition with_ctx (w : spPaint3dWin) (c : option context) : spPaint3dWin :=
  {| mayaVersion := mayaVersion w; errorHandle := errorHandle w;
     uiValues := uiValues w; transform := transform w;
     sourceList := sourceList w; targetList := targetList w; ctx := c;
     uiSourceList := uiSourceList w; uiTargetList := uiTargetList w;
     notTextList := notTextList w |}.
Definition with_uiSourceList (w : spPaint3dWin) (items : list string) : spPaint3dWin :=
  {| mayaVersion := mayaVersion w; errorHandle := errorHandle w;
     uiValues := uiValues w; transform := transform w;
     sourceList := sourceList w; targetList := targetList w; ctx := ctx w;
     uiSourceList := items; uiTargetList := uiTargetList w;
     notTextList := notTextList w |}.
Definition with_uiTargetList (w : spPaint3dWin) (items : list string) : spPaint3dWin :=
  {| mayaVersion := mayaVersion w; errorHandle := errorHandle w;
     uiValues := uiValues w; transform := transform w;
     sourceList := sourceList w; targetList := targetList w; ctx := ctx w;
     uiSourceList := uiSourceList w; uiTargetList := items;
     notTextList := notTextList w |}.

(** The context built from the window as it is: [context.paintContext(...)],
    [context.placeContext(...)] and, on an existing context,
    [runtimeUpdate(...)], all take these four attributes. *)
Definition handed (k : string) (w : spPaint3dWin) : context :=
  {| kind := k; ctx_uiValues := uiValues w; ctx_transform := transform w;
     ctx_sourceList := sourceList w; ctx_targetList := targetList w |}.

(** [updateCtx(self)] *)
Definition updateCtx (w : spPaint3dWin) : spPaint3dWin :=
  match ctx w with
  | Some c => with_ctx w (Some (handed (kind c) w))
  | None => w
  end.

(** In [uiListCallback]: the registry that goes with a text list. *)
Definition objlist_of (textlist : string) : string :=
  if decide (textlist = "uiSourceList") then "sourceList" else "targetList".

(** [self.__dict__[objlist]] for the two names [objlist_of] gives. *)
Definition get_objlist (w : spPaint3dWin) (objlist : string)
  : ObjectList.sp3dObjectList :=
  if decide (objlist = "sourceList") then sourceList w else targetList w.

Definition set_objlist (w : spPaint3dWin) (objlist : string)
    (l : ObjectList.sp3dObjectList) : spPaint3dWin :=
  if decide (objlist = "sourceList") then with_sourceList w l
  else with_targetList w l.

(** [cmds.textScrollList(self.__dict__[textlist], ...)]: the items of the
    text list of that name.  Under any other name either the lookup raises
    [KeyError] or, the name being another attribute of the window, the
    Maya command raises; which of the two is [notTextList]. *)
Definition items_of (w : spPaint3dWin) (textlist : string) : outcome (list string) :=
  if decide (textlist = "uiSourceList") then Ok (uiSourceList w)
  else if decide (textlist = "uiTargetList") then Ok (uiTargetList w)
  else Raise (notTextList w textlist).

Definition set_items (w : spPaint3dWin) (textlist : string) (items : list string)
  : spPaint3dWin :=
  if decide (textlist = "uiSourceList") then with_uiSourceList w items
  else with_uiTargetList w items.

(** [edit=True, removeItem=x] on the items of a text list. *)
Fixpoint removeItem (x : string) (items : list string) : list string :=
  match items with
  | [] => []
  | y :: items' => if decide (x = y) then items' else y :: removeItem x items'
  end.

(** The window with its error handle, the registry of a text list and the
    items of that list replaced. *)
Definition put (w : spPaint3dWin) (textlist : string) (h : sp3derror)
    (l : ObjectList.sp3dObjectList) (items : list string) : spPaint3dWin :=
  set_items (set_objlist (with_errorHandle w h) (objlist_of textlist) l)
    textlist items.

(** [addObj], with its default arguments, called on a registry for each
    node in turn: the registry afterwards, the keys it accepted and the
    reasons it refused with, each in the order of the calls. *)
Fixpoint addObj_each (sc : scene) (self : ObjectList.sp3dObjectList)
    (objs : list string)
  : outcome (ObjectList.sp3dObjectList * list string * list string) :=
  match objs with
  | [] => Ok (self, [], [])
  | o :: rest =>
      do r <- ObjectList.addObj sc self o true (1 # 2) "Up";
      do r' <- addObj_each sc r.1 rest;
      match r.2.1, r.2.2 with
      | Some k, _ => Ok (r'.1.1, k :: r'.1.2, r'.2)
      | None, ObjectList.Reason m => Ok (r'.1.1, r'.1.2, m :: r'.2)
      | None, ObjectList.Added => Ok r'
      end
  end.

(** What the error handle holds after [raiseError] was called with each
    of the messages in turn. *)
Definition reported (h : sp3derror) (msgs : list string) : sp3derror :=
  foldl raiseError h msgs.

(** The loop of the 'add' mode over the selected nodes; [addObj] is called
    with its default activation, probability and alignment. *)
Fixpoint add_selected (sc : scene) (objselected : list string) (textlist : string)
    (w : spPaint3dWin) : outcome spPaint3dWin :=
  match objselected with
  | [] => Ok w
  | o :: rest =>
      let objlist := objlist_of textlist in
      do r <- ObjectList.addObj sc (get_objlist w objlist) o true (1 # 2) "Up";
      let w1 := set_objlist w objlist r.1 in
      do w2 <-
        match r.2.1, r.2.2 with
        | None, ObjectList.Reason addcomment =>
            do h <- call_raiseError (errorHandle w1) [Some addcomment];
            Ok (with_errorHandle w1 h)
        | None, ObjectList.Added => Raise "TypeError"
        | Some addresult, _ =>
            if objExists sc (Some addresult) then
              do items <- items_of w1 textlist;
              Ok (set_items w1 textlist (items ++ [addresult]))
            else Ok w1
        end;
      add_selected sc rest textlist w2
  end.

(** The loop of the 'rem' mode over the items selected in the text list. *)
Fixpoint remove_selected (remlist : list string) (textlist : string)
    (w : spPaint3dWin) : outcome spPaint3dWin :=
  match remlist with
  | [] => Ok w
  | remobj :: rest =>
      let objlist := objlist_of textlist in
      do l <- ObjectList.delObj (get_objlist w objlist) remobj;
      let w1 := set_objlist w objlist l in
      do items <- items_of w1 textlist;
      remove_selected rest textlist (set_items w1 textlist (removeItem remobj items))
  end.

(** [uiListCallback(self, mode, textlist)].  [objselected] is what
    [cmds.ls(selection=True)] answers, [remlist] what the text list answers
    for its selected items ([None] without a selection). *)
Definition uiListCallback (sc : scene) (w : spPaint3dWin) (mode textlist : string)
    (objselected : list string) (remlist : option (list string))
  : outcome spPaint3dWin :=
  let objlist := objlist_of textlist in
  do w' <-
    (if decide (mode = "add") then add_selected sc objselected textlist w
     else if decide (mode = "clr") then
       do _ <- items_of w textlist;
       let w1 := set_items w textlist [] in
       Ok (set_objlist w1 objlist (ObjectList.clrObj (get_objlist w1 objlist)))
     else if decide (mode = "rem") then
       do _ <- items_of w textlist;
       match remlist with
       | Some (x :: xs) => remove_selected (x :: xs) textlist w
       | _ => Ok w
       end
     else Ok w);
  Ok (updateCtx w').

Definition msg_source : string :=
  "Source list is empty or object(s) have been deleted. FIX!".
Definition msg_target : string :=
  "Target list is empty or object(s) have been deleted. FIX!".
Definition msg_both : string := "Object(s) can't be in both lists, FIX!".
Definition msg_paint : string := "Engage!! Maximum Paint...".
Definition msg_place : string := "Engage!! Maximum Place...".

(** [genericContextCallback(self, *args)] with [args[0]]; the setup window
    and the unit label are outside the model. *)
Definition genericContextCallback (sc : scene) (w : spPaint3dWin) (arg0 : string)
  : outcome spPaint3dWin :=
  do sv <- (ObjectList.validateObjects sc (sourceList w)).2;
  let w1 := with_sourceList w sv.1 in
  do tv <- (ObjectList.validateObjects sc (targetList w1)).2;
  let w2 := with_targetList w1 tv.1 in
  let duplicateerror := ObjectList.hasDuplicate (sourceList w2) (targetList w2) in
  if negb sv.2 then
    do h <- call_raiseError (errorHandle w2) [Some msg_source];
    Ok (with_errorHandle w2 h)
  else if negb tv.2 then
    do h <- call_raiseError (errorHandle w2) [Some msg_target];
    Ok (with_errorHandle w2 h)
  else if duplicateerror then
    do h <- call_raiseError (errorHandle w2) [Some msg_both];
    Ok (with_errorHandle w2 h)
  else if decide (arg0 = "PaintCtx") then
    do h <- call_raiseError (errorHandle w2) [Some msg_paint];
    let w3 := with_errorHandle w2 h in
    Ok (with_ctx w3 (Some (handed "PaintCtx" w3)))
  else if decide (arg0 = "PlaceCtx") then
    do h <- call_raiseError (errorHandle w2) [Some msg_place];
    let w3 := with_errorHandle w2 h in
    Ok (with_ctx w3 (Some (handed "PlaceCtx" w3)))
  else Ok w2.

(** What [updateUIControls] writes into the controls of the main window. *)
Record mainControls : Type := {
  uiTransformRotateCheck : pyval;
  uiTransformScaleCheck : pyval;
  uiTransformScaleUniformCheck : pyval;
  uiJitterCheck : pyval;
  uiPaintDupSCB : pyval;
  uiPaintRandSCB : pyval;
  uiPaintAlignSCB : pyval;
  uiPaintTimer_visible : bool;
  uiPaintTimer_value : pyval;
  uiPaintDistance_visible : pyval;
  uiPaintDistance_v1 : pyval;
  visible_control : string;
  uiUpOffset_v1 : pyval;
  uiPaintMetricsRampMenu : string
}.

(** [updateUIControls(self, ui)] *)
Definition updateUIControls (ui : gmap string pyval) : outcome mainControls :=
  do transformRotate <- GroupID.getattr ui "transformRotate";
  do transformScale <- GroupID.getattr ui "transformScale";
  do transformScaleUniform <- GroupID.getattr ui "transformScaleUniform";
  do jitter <- GroupID.getattr ui "jitter";
  do instance <- GroupID.getattr ui "instance";
  do random <- GroupID.getattr ui "random";
  do align <- GroupID.getattr ui "align";
  do paintFlux <- GroupID.getattr ui "paintFlux";
  do paintTimer <- GroupID.getattr ui "paintTimer";
  do paintDistance <- GroupID.getattr ui "paintDistance";
  do upOffset <- GroupID.getattr ui "upOffset";
  do rampFX <- GroupID.getattr ui "rampFX";
  Ok {| uiTransformRotateCheck := transformRotate;
        uiTransformScaleCheck := transformScale;
        uiTransformScaleUniformCheck := transformScaleUniform;
        uiJitterCheck := jitter;
        uiPaintDupSCB := instance;
        uiPaintRandSCB := random;
        uiPaintAlignSCB := align;
        uiPaintTimer_visible := negb (GroupID.py_truth paintFlux);
        uiPaintTimer_value := paintTimer;
        uiPaintDistance_visible := paintFlux;
        uiPaintDistance_v1 := paintDistance;
        visible_control :=
          if GroupID.py_truth paintFlux then "uiPaintDistance" else "uiPaintTimer";
        uiUpOffset_v1 := upOffset;
        uiPaintMetricsRampMenu :=
          if py_eq rampFX (VInt 1) then "rotate"
          else if py_eq rampFX (VInt 2) then "scale"
          else if py_eq rampFX (VInt 3) then "both"
          else " " |}.

(** Each text list shows the keys of its registry, in the same order, and
    the keys of each registry are distinct. *)
Definition synced (w : spPaint3dWin) : Prop :=
  uiSourceList w = ObjectList.keys (sourceList w) /\
  uiTargetList w = ObjectList.keys (targetList w) /\
  PyDict.wf (ObjectList.obj (sourceList w)) /\
  PyDict.wf (ObjectList.obj (targetList w)).

(** The text list [textlist] shows the keys of its registry, in order, and
    these are distinct. *)
Definition listed (w : spPaint3dWin) (textlist : string) : Prop :=
  items_of w textlist
  = Ok (ObjectList.keys (get_objlist w (objlist_of textlist))) /\
  PyDict.wf (ObjectList.obj (get_objlist w (objlist_of textlist))).

(** The text list a callback on [textlist] is not about. *)
Definition other (textlist : string) : string :=
  if decide (textlist = "uiSourceList") then "uiTargetList" else "uiSourceList".

(** A node as [cmds.ls(selection=True)] lists it: it exists, and so does
    its child shape if it has a single one; the scene answers the queries
    [addObj] makes about them. *)
Definition selectable (sc : scene) (o : string) : Prop :=
  objExists sc (Some o) = true /\
  returns (objectType sc o) /\
  returns (childShapes sc o) /\
  returns (getDAGPath sc o true) /\
  forall c, childShapes sc o = Ok (Some [c]) ->
    objExists sc (Some c) = true /\
    returns (nodeType sc c) /\ returns (getDAGPath sc c true).

(** What [validateObjects] asks of a registry: a key, and every reference
    alive in the scene. *)
Definition ready (sc : scene) (l : ObjectList.sp3dObjectList) : Prop :=
  ObjectList.keys l <> [] /\
  Forall (fun k => objExists sc (ObjectList.ref l k) = true) (ObjectList.keys l).

(** Every attribute of the table holds a number. *)
Definition numbers (self : gmap string pyval) : Prop :=
  forall r, r ∈ ToolOption.sp3dOptionVars ->
    exists v, self !! ToolOption.row_var r = Some v /\ is_number v = true.

(** A window right after it is built on the scene [Samples.garden] with
    some objects filed, and a runtime whose [float()] refuses every
    string. *)
Definition window0 : spPaint3dWin :=
  {| mayaVersion := 2022;
     errorHandle := {| error := "spPaint3d"; ui := "uiInfoTextField" |};
     uiValues := ToolOption.init_attrs;
     transform := Transform.init_default;
     sourceList := Samples.weighted_pair;
     targetList :=
       ObjectList.with_obj Samples.target0
         [ ("rigShape", Samples.entry_of "|rig|rigShape" true (1 # 2)) ];
     ctx := None;
     uiSourceList := ["treeShape"; "rockShape"];
     uiTargetList := ["rigShape"];
     notTextList := fun name =>
       if bool_decide (name ∈ ["mayaVersion"; "errorHandle"; "uiValues";
                               "transform"; "sourceList"; "targetList";
                               "ctx"; "uiWin"])
       then "RuntimeError" else "KeyError" |}.

Definition no_str_to_float (s : string) : outcome Q := Raise "ValueError".

Section Callbacks.
(** [int(s)] and [float(s)] on a string are the parsers of the runtime. *)
Variable str_to_int : string -> outcome Z.
Variable str_to_float : string -> outcome Q.

(** [float(v)] *)
Definition py_float (v : pyval) : outcome Q :=
  match v with
  | VStr s => str_to_float s
  | _ => to_float v
  end.

(** [uiRampMenuCallback(self, *args)] with [args[1][0]], on the window and
    the option store. *)
Definition uiRampMenuCallback (w : spPaint3dWin) (store : gmap string optval)
    (label : string) : outcome (spPaint3dWin * gmap string optval) :=
  let rampFX :=
    if decide (label = "rotate") then VInt 1
    else if decide (label = "scale") then VInt 2
    else if decide (label = "both") then VInt 3
    else VInt 0 in
  let w1 := with_uiValues w (<["rampFX" := rampFX]> (uiValues w)) in
  do store' <- ToolOption.commitVars str_to_int (uiValues w1) store;
  Ok (updateCtx w1, store').

(** [uiFluxCallback(self, *args)] with [args[0]] and [args[1][0]];
    [uiPaintOffsetCallback] and [uiSetupPlaceRotateCallback] have the same
    body but for the unit label, which is outside the model. *)
Definition uiFluxCallback (w : spPaint3dWin) (store : gmap string optval)
    (name : string) (value : pyval)
  : outcome (spPaint3dWin * gmap string optval) :=
  do q <- py_float value;
  let w1 := with_uiValues w (<[name := VFloat q]> (uiValues w)) in
  do store' <- ToolOption.commitVars str_to_int (uiValues w1) store;
  Ok (updateCtx w1, store').

(** [uiCheckBoxCallback(self, *args)] with [args[0]] and [args[1][0]] *)
Definition uiCheckBoxCallback (w : spPaint3dWin) (store : gmap string optval)
    (name : string) (uicontrol : pyval)
  : outcome (spPaint3dWin * gmap string optval) :=
  let w1 :=
    with_uiValues w
      (<[name := getBoolFromMayaControl uicontrol (mayaVersion w)]> (uiValues w)) in
  do store' <- ToolOption.commitVars str_to_int (uiValues w1) store;
  Ok (updateCtx w1, store').
End Callbacks.

End Window.

(** * Properties *)

(** Closed decidable facts are settled by evaluation. *)
Ltac by_decide :=
  match goal with
  | |- ?P => apply (bool_decide_unpack P); vm_compute; exact I
  end.

(** ** Dictionaries *)

Section PyDictFacts.
Context {V : Type}.
Implicit Types (d : list (string * V)) (k : string) (v : V).

Lemma mem_true k d : PyDict.mem k d = true <-> k ∈ PyDict.keys d.
Proof. unfold PyDict.mem. apply bool_decide_eq_true. Qed.

Lemma mem_false k d : PyDict.mem k d = false <-> k ∉ PyDict.keys d.
Proof. unfold PyDict.mem. apply bool_decide_eq_false. Qed.

Lemma get_is_Some k d : is_Some (PyDict.get k d) <-> k ∈ PyDict.keys d.
Proof.
  unfold PyDict.keys. induction d as [|[k' v'] d IH]; simpl.
  - split; [intros [? ?]; discriminate | intros H; inversion H].
  - case_decide; subst.
    + split; [intros _; left | eauto].
    + rewrite IH. split; [intros H'; by right |].
      intros H'. apply elem_of_cons in H' as [?|?]; [congruence | done].
Qed.

Lemma get_None k d : PyDict.get k d = None <-> k ∉ PyDict.keys d.
Proof. rewrite <- get_is_Some, eq_None_not_Some. tauto. Qed.

Lemma set_fresh k v d :
  k ∉ PyDict.keys d -> PyDict.set k v d = d ++ [(k, v)].
Proof.
  unfold PyDict.keys. induction d as [|[k' v'] d IH]; simpl; intros Hk; [done|].
  apply not_elem_of_cons in Hk as [Hne Hk].
  case_decide; [congruence|]. by rewrite IH.
Qed.

Lemma remove_snoc_fresh k v d :
  k ∉ PyDict.keys d -> PyDict.remove k (d ++ [(k, v)]) = d.
Proof.
  unfold PyDict.keys. induction d as [|[k' v'] d IH]; simpl; intros Hk.
  - by case_decide.
  - apply not_elem_of_cons in Hk as [Hne Hk].
    case_decide; [congruence|]. by rewrite IH.
Qed.

Lemma keys_snoc k v d : PyDict.keys (d ++ [(k, v)]) = PyDict.keys d ++ [k].
Proof. unfold PyDict.keys. by rewrite fmap_app. Qed.

Lemma delitem_set_fresh k v d :
  k ∉ PyDict.keys d -> PyDict.delitem k (PyDict.set k v d) = Ok d.
Proof.
  intros Hk. rewrite set_fresh by done. unfold PyDict.delitem.
  assert (PyDict.mem k (d ++ [(k, v)]) = true) as ->.
  { apply mem_true. rewrite keys_snoc. set_solver. }
  by rewrite remove_snoc_fresh.
Qed.
End PyDictFacts.

Lemma py_index_lookup {A} (l : list A) (j : Z) (a : A) :
  0 <= j -> l !! Z.to_nat j = Some a -> py_index l j = Ok a.
Proof.
  intros Hj Hl. unfold py_index.
  pose proof (lookup_lt_Some _ _ _ Hl) as Hlt.
  destruct (decide (j < 0)); [lia|].
  rewrite decide_True by lia. by rewrite Hl.
Qed.

(** ** Numbers *)

Section NumFacts.
Import PyNum.

Lemma pow10_nonzero n : ~ (pow10 n == 0)%Q.
Proof.
  unfold pow10. intros H.
  assert (10 ^ Z.of_nat n = 0) as H0 by (apply inject_Z_injective; exact H).
  pose proof (Z.pow_pos_nonneg 10 (Z.of_nat n) ltac:(lia) ltac:(lia)). lia.
Qed.

#[export] Instance round_half_even_proper : Proper (Qeq ==> eq) round_half_even.
Proof.
  intros x y Hxy. unfold round_half_even.
  rewrite (Qfloor_comp _ _ Hxy).
  assert ((x - inject_Z (Qfloor y) ?= 1 # 2)%Q
          = (y - inject_Z (Qfloor y) ?= 1 # 2)%Q) as ->; [|done].
  apply Qcompare_comp; [by rewrite Hxy | done].
Qed.

#[export] Instance round_float_proper : Proper (Qeq ==> eq ==> eq) round_float.
Proof.
  intros x y Hxy n ? <-. unfold round_float.
  assert (round_half_even (x * pow10 n) = round_half_even (y * pow10 n)) as ->;
    [|done].
  apply round_half_even_proper. by rewrite Hxy.
Qed.

(** An integer is its own rounding. *)
Lemma round_half_even_Z k : round_half_even (inject_Z k) = k.
Proof.
  unfold round_half_even. rewrite Qfloor_Z.
  assert ((inject_Z k - inject_Z k ?= 1 # 2)%Q = Lt) as ->; [|done].
  apply Qlt_alt.
  assert (inject_Z k - inject_Z k == 0)%Q as E by ring.
  rewrite E. reflexivity.
Qed.

Lemma round_float_scaled x n :
  (round_float x n * pow10 n == inject_Z (round_half_even (x * pow10 n)))%Q.
Proof.
  unfold round_float. rewrite Qred_correct.
  field. apply pow10_nonzero.
Qed.

(** Rounding to [n] digits is a projection. *)
Lemma round_float_idem x n : round_float (round_float x n) n = round_float x n.
Proof.
  unfold round_float at 1.
  rewrite (round_half_even_proper _ _ (round_float_scaled x n)).
  by rewrite round_half_even_Z.
Qed.

(** Rounding keeps an integer. *)
Lemma round_float_Z k n : (round_float (inject_Z k) n == inject_Z k)%Q.
Proof.
  unfold round_float. rewrite Qred_correct.
  unfold pow10. rewrite <- inject_Z_mult, round_half_even_Z, inject_Z_mult.
  field. apply (pow10_nonzero n).
Qed.
End NumFacts.

(** ** The object registry *)

Section ObjectListFacts.
Import ObjectList Samples.
Implicit Types (self other : sp3dObjectList) (sc : scene).

Lemma alreadyExists_true self k : alreadyExists self k = true <-> k ∈ keys self.
Proof.
  unfold alreadyExists, keys. rewrite <- mem_true.
  by destruct (PyDict.mem k (obj self)).
Qed.

Lemma alreadyExists_false self k : alreadyExists self k = false <-> k ∉ keys self.
Proof.
  rewrite <- alreadyExists_true. by destruct (alreadyExists self k).
Qed.

Lemma with_obj_same self : with_obj self (obj self) = self.
Proof. by destruct self. Qed.

Lemma hasDuplicate_loop_true self ks :
  hasDuplicate_loop self ks = true <-> exists k, k ∈ ks /\ k ∈ keys self.
Proof.
  induction ks as [|k ks IH]; simpl.
  - split; [discriminate | intros (k & Hk & _); inversion Hk].
  - destruct (alreadyExists self k) eqn:E.
    + apply alreadyExists_true in E. split; [|done].
      intros _. exists k. split; [left | done].
    + apply alreadyExists_false in E. rewrite IH.
      split; intros (k' & Hin & Hself).
      * exists k'. split; [by right | done].
      * apply elem_of_cons in Hin as [->|Hin]; [done|]. by exists k'.
Qed.

(** C7: [hasDuplicate] gives the same answer whichever registry is asked
    about the other, and answers [True] exactly when the two registries
    have a key in common. *)
Theorem hasDuplicate_symmetric self other :
  hasDuplicate self other = hasDuplicate other self /\
  (hasDuplicate self other = true <->
   exists k, k ∈ keys self /\ k ∈ keys other).
Proof.
  assert (forall a b, hasDuplicate a b = true <->
                      exists k, k ∈ keys a /\ k ∈ keys b) as Hiff.
  { intros a b. unfold hasDuplicate. rewrite hasDuplicate_loop_true.
    split; intros (k & ? & ?); by exists k. }
  split; [|apply Hiff].
  destruct (hasDuplicate self other) eqn:E1, (hasDuplicate other self) eqn:E2;
    try done.
  - apply Hiff in E1 as (k & ? & ?).
    assert (hasDuplicate other self = true) by (apply Hiff; by exists k).
    congruence.
  - apply Hiff in E2 as (k & ? & ?).
    assert (hasDuplicate self other = true) by (apply Hiff; by exists k).
    congruence.
Qed.

Lemma role_auth_no_transform self : role_auth self -> "transform" ∉ auth self.
Proof.
  unfold role_auth, authType. simpl. intros H.
  repeat (apply elem_of_cons in H as [-> | H]);
    [| | | by apply elem_of_nil in H];
    intros Hin; repeat (apply elem_of_cons in Hin as [? | Hin]; [done|]);
    by apply elem_of_nil in Hin.
Qed.

(** C5: when [addObj] accepts a candidate under the key [k], the key is new
    and filed last, [delObj k] then succeeds and gives back the registry as
    it was before the addition, entries and index alike; neither call
    moves the index. *)
Theorem addObj_delObj sc self o act p al self' k c :
  addObj sc self o act p al = Ok (self', (Some k, c)) ->
  delObj self' k = Ok self /\
  (k ∉ keys self) /\
  keys self' = keys self ++ [k] /\
  i self' = i self.
Proof.
  unfold addObj. intros H.
  assert (forall e, k ∉ keys self ->
            self' = with_obj self (PyDict.set k e (obj self)) ->
            delObj self' k = Ok self /\ (k ∉ keys self) /\
            keys self' = keys self ++ [k] /\ i self' = i self) as Hacc.
  { intros e Hk ->. destruct self as [d0 i0 a0 h0].
    unfold delObj, keys, with_obj in *. simpl in *.
    rewrite delitem_set_fresh by done. simpl.
    rewrite set_fresh by done. by rewrite keys_snoc. }
  destruct (alreadyExists self o) eqn:Ho; [by inversion H|].
  apply alreadyExists_false in Ho.
  destruct (objectType sc o) as [objtype|]; simpl in H; [|done].
  destruct (childShapes sc o) as [objchild|]; simpl in H; [|done].
  case_decide.
  { destruct (getDAGPath sc o true) as [d|]; simpl in H; [|done].
    inversion H; subst. by eapply Hacc. }
  case_decide; [|by inversion H].
  destruct objchild as [[|ch [|? ?]]|]; try by inversion H.
  destruct (nodeType sc ch) as [ctype|]; simpl in H; [|done].
  case_decide; [|by inversion H].
  destruct (alreadyExists self ch) eqn:Hch; [by inversion H|].
  apply alreadyExists_false in Hch.
  destruct (getDAGPath sc ch true) as [d|]; simpl in H; [|done].
  inversion H; subst. by eapply Hacc.
Qed.

Lemma addObj_delObj_witness :
  delObj (with_obj target0
            [("treeShape", mk_entry (Some "|tree|treeShape") true (1 # 2) "Up")])
         "treeShape" = Ok target0 /\
  ("treeShape" ∉ keys target0) /\
  keys (with_obj target0
          [("treeShape", mk_entry (Some "|tree|treeShape") true (1 # 2) "Up")])
    = keys target0 ++ ["treeShape"] /\
  i (with_obj target0
       [("treeShape", mk_entry (Some "|tree|treeShape") true (1 # 2) "Up")])
    = i target0.
Proof.
  apply (addObj_delObj garden target0 "tree" true (1 # 2) "Up" _ _ Added).
  vm_compute. reflexivity.
Defined.



(** The two branches [addObj] has for a transform with child shapes: a
    candidate that is not itself a key is refused as too complex, and
    nothing is added, when it has more than one immediate child shape,
    whatever their types; it is accepted under its child when that is its
    only child shape, of an authorized type and not yet a key. *)
Theorem addObj_transform sc self o act p al shapes :
  role_auth self ->
  alreadyExists self o = false ->
  objectType sc o = Ok "transform" ->
  childShapes sc o = Ok (Some shapes) ->
  ((1 < length shapes)%nat ->
   addObj sc self o act p al = Ok (self, (None, Reason msg_complex))) /\
  (forall c d,
     shapes = [c] ->
     qualifies sc self c = true ->
     alreadyExists self c = false ->
     getDAGPath sc c true = Ok d ->
     addObj sc self o act p al
     = Ok (with_obj self (obj self ++ [(c, mk_entry d act p al)]),
           (Some c, Added))).
Proof.
  intros Hrole Ho Ht Hsh. apply role_auth_no_transform in Hrole.
  unfold addObj. rewrite Ho, Ht, Hsh. simpl.
  destruct (decide ("transform" ∈ auth self)); [done|].
  split.
  - intros Hlen. destruct shapes as [|? [|? ?]]; simpl in Hlen; [lia|lia|done].
  - intros c d -> Hq Hc Hd. unfold qualifies in Hq.
    destruct (nodeType sc c) as [t|]; simpl in *; [|done].
    apply bool_decide_eq_true in Hq.
    destruct (decide (t ∈ auth self)); [|done].
    rewrite Hc, Hd. simpl.
    apply alreadyExists_false in Hc. by rewrite set_fresh.
Qed.

Lemma addObj_transform_witness :
  addObj garden target0 "pair" true (1 # 2) "Up"
  = Ok (target0, (None, Reason msg_complex)) /\
  addObj garden target0 "tree" true (1 # 2) "Up"
  = Ok (with_obj target0
          (obj target0 ++
           [("treeShape", mk_entry (Some "|tree|treeShape") true (1 # 2) "Up")]),
        (Some "treeShape", Added)).
Proof.
  assert (role_auth target0) as Hrole by by_decide.
  split.
  - apply (proj1 (addObj_transform garden target0 "pair" true (1 # 2) "Up"
                    ["pairShape"; "pairShapeOrig"]
                    Hrole eq_refl eq_refl eq_refl)).
    simpl. lia.
  - apply (proj2 (addObj_transform garden target0 "tree" true (1 # 2) "Up"
                    ["treeShape"] Hrole eq_refl eq_refl eq_refl)
             "treeShape" (Some "|tree|treeShape")); reflexivity.
Defined.

(** C4: a transform with exactly one child shape of an authorized type
    is not always accepted.  The transform [rig] of the sample scene
    carries the mesh [rigShape] and the curve [rigCurve]; for a target
    registry the mesh is its only qualifying child, neither name is a key,
    and [addObj] refuses it as too complex and adds nothing.  The refusal
    does not depend on the sample: whenever a transform has a second child
    shape, of whatever type, the only qualifying child is not looked
    for. *)
Theorem addObj_one_qualifying_child_refused :
  objectType garden "rig" = Ok "transform" /\
  childShapes garden "rig" = Ok (Some ["rigShape"; "rigCurve"]) /\
  filter (fun x => qualifies garden target0 x = true) ["rigShape"; "rigCurve"]
  = ["rigShape"] /\
  alreadyExists target0 "rig" = false /\
  alreadyExists target0 "rigShape" = false /\
  addObj garden target0 "rig" true (1 # 2) "Up"
  = Ok (target0, (None, Reason msg_complex)) /\
  (forall sc self o c act p al shapes,
     role_auth self ->
     alreadyExists self o = false ->
     objectType sc o = Ok "transform" ->
     childShapes sc o = Ok (Some shapes) ->
     (1 < length shapes)%nat ->
     filter (fun x => qualifies sc self x = true) shapes = [c] ->
     alreadyExists self c = false ->
     addObj sc self o act p al = Ok (self, (None, Reason msg_complex))).
Proof.
  do 6 (split; [reflexivity|]).
  intros sc self o c act p al shapes Hrole Ho Ht Hsh Hlen _ _.
  apply role_auth_no_transform in Hrole.
  unfold addObj. rewrite Ho, Ht, Hsh. simpl.
  destruct (decide ("transform" ∈ auth self)); [done|].
  destruct shapes as [|? [|? ?]]; simpl in Hlen; [lia|lia|done].
Qed.

Lemma getitem_ref self k :
  k ∈ keys self ->
  exists data, PyDict.getitem k (obj self) = Ok data /\ dag data = ref self k.
Proof.
  intros Hk. apply get_is_Some in Hk as [e He].
  exists e. unfold PyDict.getitem, ref. by rewrite He.
Qed.

Lemma getRandom_spec self weighted draw :
  keys self <> [] ->
  exists k,
    keys self !! Z.to_nat (draw `mod` Z.of_nat (length (keys self))) = Some k /\
    getRandom self weighted draw = Ok (ref self k).
Proof.
  intros Hne. unfold getRandom, randint.
  set (n := Z.of_nat (length (keys self))).
  assert (0 < n) as Hn.
  { unfold n. destruct (keys self); [done | simpl; lia]. }
  pose proof (Z.mod_pos_bound draw n Hn) as Hb.
  rewrite decide_True by lia. simpl.
  replace (n - 1 - 0 + 1) with n by lia. rewrite Z.add_0_l.
  destruct (keys self !! Z.to_nat (draw `mod` n)) as [k|] eqn:Hk.
  - exists k. split; [done|].
    rewrite (py_index_lookup _ _ k) by (done || lia). simpl.
    destruct (getitem_ref self k) as (e & -> & <-); [|done].
    eapply list_elem_of_lookup_2, Hk.
  - apply lookup_ge_None in Hk. lia.
Qed.

(** C1: [getRandom] reads neither its [weighted] argument nor the stored
    weights and flags.  On the registry of two enabled entries weighted
    0.1 and 0.9 a weighted pick answers the first entry on draw 0 and the
    second on draw 1, so over the draws 0..9 each is answered five times,
    not once and nine times; and a disabled entry is still answered. *)
Theorem getRandom_ignores_weights :
  getRandom weighted_pair true 0 = Ok (Some "|tree|treeShape") /\
  getRandom weighted_pair true 1 = Ok (Some "|rock|rockShape") /\
  hits "|tree|treeShape" (picks weighted_pair true 10) = 5%nat /\
  hits "|rock|rockShape" (picks weighted_pair true 10) = 5%nat /\
  getRandom first_disabled false 0 = Ok (Some "|tree|treeShape") /\
  (forall self draw, getRandom self true draw = getRandom self false draw).
Proof. repeat split; vm_compute; reflexivity. Qed.

(** The loop of [validateObjects] on a registry without an error handle:
    it answers [True] having examined every reference, all live; or
    [False] having stopped on the first dead one. *)
Lemma validate_loop_no_handle sc self ks :
  errorHandle self = None ->
  Forall (fun k => k ∈ keys self) ks ->
  let refs := map (ref self) ks in
  (validate_loop sc self ks = (refs, Ok true) /\
   Forall (fun r => objExists sc r = true) refs) \/
  (exists pre d post,
     refs = pre ++ d :: post /\
     Forall (fun r => objExists sc r = true) pre /\
     objExists sc d = false /\
     validate_loop sc self ks = (pre ++ [d], Ok false)).
Proof.
  intros Hh. induction ks as [|k ks IH]; intros Hks refs.
  - left. by split.
  - apply Forall_cons in Hks as [Hk Hks]. subst refs. simpl.
    destruct (getitem_ref self k Hk) as (e & -> & He). rewrite Hh, He.
    destruct (objExists sc (ref self k)) eqn:Hlive.
    + destruct (IH Hks) as [[-> Hall] | (pre & d & post & Hrefs & Hpre & Hd & ->)].
      * left. split; [done|]. by constructor.
      * right. exists (ref self k :: pre), d, post.
        repeat split; [by rewrite Hrefs | by constructor | done].
    + right. by exists [], (ref self k), (map (ref self) ks).
Qed.

(** [validateObjects] on a registry without an error handle: [False] on
    the empty registry; otherwise [True] exactly when every stored
    reference is live, and [False] with nothing examined after the first
    dead reference. *)
Lemma validateObjects_no_handle sc self :
  errorHandle self = None ->
  let refs := map (ref self) (keys self) in
  (keys self = [] -> validateObjects sc self = ([], Ok (self, false))) /\
  (keys self <> [] ->
   (validateObjects sc self = (refs, Ok (self, true)) /\
    Forall (fun r => objExists sc r = true) refs) \/
   (exists pre d post,
      refs = pre ++ d :: post /\
      Forall (fun r => objExists sc r = true) pre /\
      objExists sc d = false /\
      validateObjects sc self = (pre ++ [d], Ok (self, false)))).
Proof.
  intros Hh refs. unfold validateObjects. split.
  - intros ->. done.
  - intros Hne. rewrite decide_False by (by destruct (keys self)).
    destruct (validate_loop_no_handle sc self (keys self) Hh)
      as [[-> Hall] | (pre & d & post & Hrefs & Hpre & Hd & ->)].
    + by apply Forall_forall.
    + left. simpl. by rewrite Hh.
    + right. by exists pre, d, post.
Qed.

(** With an error handle, [validateObjects] raises on every registry that
    holds an entry: the report on the first entry passes two arguments to
    [raiseError]. *)
Lemma validateObjects_handle_raises sc self h :
  errorHandle self = Some h ->
  keys self <> [] ->
  validateObjects sc self = ([], Raise "TypeError").
Proof.
  intros Hh Hne. unfold validateObjects.
  rewrite decide_False by (by destruct (keys self)).
  destruct (keys self) as [|k ks] eqn:Hkeys; [done|].
  destruct (getitem_ref self k) as (e & He & _).
  { rewrite Hkeys. left. }
  simpl. rewrite He, Hh. reflexivity.
Qed.

(** C8: on a registry that reports to an error handle, [validateObjects]
    does not return.  The sample registry holds one entry whose reference
    is live; the call raises [TypeError] at the report on that entry,
    before [objExists] is asked, where the claim has it return [True]. *)
Theorem validateObjects_reporting_raises :
  keys reporting = ["treeShape"] /\
  objExists garden (ref reporting "treeShape") = true /\
  validateObjects garden reporting = ([], Raise "TypeError") /\
  validateObjects garden (with_errorHandle reporting None)
  = ([Some "|tree|treeShape"], Ok (with_errorHandle reporting None, true)).
Proof. repeat split. Qed.

Lemma with_i_same self : with_i self (i self) = self.
Proof. by destruct self. Qed.

Lemma lookup_seq_default {A} (l : list A) (a : A) :
  map (fun t => default a (l !! t)) (seq 0 (length l)) = l.
Proof.
  induction l as [|x l IH]; [done|].
  simpl. f_equal. rewrite <- seq_shift, map_map. exact IH.
Qed.

Lemma sorted_keys_length self :
  length (merge_sort String.le (keys self)) = length (keys self).
Proof. apply Permutation_length, merge_sort_Permutation. Qed.

Lemma getNext_spec self :
  keys self <> [] ->
  getNext self = Ok (with_i self (i self + 1), ref self (next_key self (i self))).
Proof.
  intros Hne. unfold getNext, next_key, py_mod.
  set (dkeys := merge_sort String.le (keys self)).
  assert (0 < Z.of_nat (length dkeys)) as Hn.
  { unfold dkeys. rewrite sorted_keys_length.
    destruct (keys self); [done | simpl; lia]. }
  rewrite decide_False by lia. simpl.
  pose proof (Z.mod_pos_bound (i self) _ Hn) as Hb.
  destruct (dkeys !! Z.to_nat (i self `mod` Z.of_nat (length dkeys)))
    as [k|] eqn:Hk; [|apply lookup_ge_None in Hk; lia].
  rewrite (py_index_lookup _ _ k) by (done || lia). simpl.
  destruct (getitem_ref self k) as (e & -> & <-); [|done].
  apply list_elem_of_lookup_2 in Hk. unfold dkeys in Hk.
  by rewrite merge_sort_Permutation in Hk.
Qed.

Lemma calls_getNext_spec m self :
  keys self <> [] ->
  calls_getNext m self
  = Ok (with_i self (i self + Z.of_nat m),
        map (fun t => ref self (next_key self (i self + Z.of_nat t))) (seq 0 m)).
Proof.
  revert self. induction m as [|m IH]; intros self Hne.
  - simpl. by rewrite Z.add_0_r, with_i_same.
  - cbn [calls_getNext]. rewrite getNext_spec by done. cbn [obind fst snd].
    rewrite IH by done. cbn [obind fst snd].
    f_equal. f_equal.
    + destruct self. unfold with_i. cbn [i obj auth errorHandle].
      f_equal. lia.
    + cbn [seq map]. f_equal; [by rewrite Z.add_0_r|].
      rewrite <- seq_shift, map_map. apply map_ext. intros t.
      destruct self. unfold with_i, ref, next_key, keys.
      cbn [i obj auth errorHandle].
      by replace (i0 + 1 + Z.of_nat t) with (i0 + Z.of_nat (S t)) by lia.
Qed.

Lemma keys_with_activation flag self : keys (with_activation flag self) = keys self.
Proof.
  unfold keys, with_activation, PyDict.keys. simpl.
  induction (obj self) as [|[k e] d IH]; [done|]. simpl. by f_equal.
Qed.

Lemma ref_with_activation flag self k : ref (with_activation flag self) k = ref self k.
Proof.
  unfold ref, with_activation. simpl.
  induction (obj self) as [|[k' e] d IH]; [done|]. simpl.
  by case_decide.
Qed.

(** The references [getNext] answers over one round and one more call:
    those of the sorted keys, then that of the first sorted key again. *)
Lemma round_refs self :
  keys self <> [] ->
  let sorted := merge_sort String.le (keys self) in
  map (fun t => ref self (next_key self (0 + Z.of_nat t)))
      (seq 0 (S (length (keys self))))
  = map (ref self) sorted ++ map (ref self) (take 1 sorted).
Proof.
  intros Hne sorted. rewrite seq_S, map_app. simpl.
  assert (length sorted = length (keys self)) as Hlen
    by apply sorted_keys_length.
  assert (0 < length sorted)%nat as Hpos.
  { rewrite Hlen. destruct (keys self); [done | simpl; lia]. }
  f_equal.
  - transitivity (map (ref self)
                    (map (fun t => default "" (sorted !! t))
                         (seq 0 (length sorted))));
      [|by rewrite lookup_seq_default].
    rewrite map_map, Hlen. apply map_ext_in. intros t Ht.
    apply in_seq in Ht. unfold next_key. fold sorted.
    rewrite Z.add_0_l, Z.mod_small by lia. by rewrite Nat2Z.id.
  - unfold next_key. fold sorted. rewrite Z.add_0_l, <- Hlen, Z.mod_same by lia.
    destruct sorted; [simpl in Hpos; lia | done].
Qed.

(** C2: on a registry with distinct keys, at least one, and the index at
    its initial value 0, as many calls of [getNext] as there are keys
    answer the stored references of the keys in ascending order, each key
    once, and one more call answers the reference of the first key again;
    the entries are left as they were, the index has advanced by the number
    of calls, and the answers are the same whatever the activation flags
    of the entries. *)
Theorem getNext_round_robin self :
  PyDict.wf (obj self) ->
  keys self <> [] ->
  i self = 0 ->
  let n := length (keys self) in
  let sorted := merge_sort String.le (keys self) in
  let answers := map (ref self) sorted ++ map (ref self) (take 1 sorted) in
  Sorted String.le sorted /\
  sorted ≡ₚ keys self /\
  NoDup sorted /\
  calls_getNext (S n) self = Ok (with_i self (Z.of_nat (S n)), answers) /\
  forall flag,
    calls_getNext (S n) (with_activation flag self)
    = Ok (with_i (with_activation flag self) (Z.of_nat (S n)), answers).
Proof.
  intros Hwf Hne Hi n sorted answers.
  assert (sorted ≡ₚ keys self) as Hperm by apply merge_sort_Permutation.
  split; [apply Sorted_merge_sort, _|].
  split; [done|].
  split; [unfold PyDict.wf in Hwf; by rewrite Hperm|].
  split.
  - rewrite calls_getNext_spec, Hi by done. rewrite Z.add_0_l.
    f_equal. f_equal. by apply round_refs.
  - intros flag.
    rewrite calls_getNext_spec by (by rewrite keys_with_activation).
    assert (i (with_activation flag self) = 0) as -> by done.
    rewrite Z.add_0_l. f_equal. f_equal.
    unfold n, answers, sorted.
    rewrite <- (keys_with_activation flag self).
    rewrite round_refs by (by rewrite keys_with_activation).
    rewrite !keys_with_activation.
    f_equal; apply map_ext; intros k; apply ref_with_activation.
Qed.

Lemma getNext_round_robin_witness :
  Sorted String.le ["rigShape"; "rockShape"; "treeShape"] /\
  ["rigShape"; "rockShape"; "treeShape"] ≡ₚ keys three /\
  NoDup ["rigShape"; "rockShape"; "treeShape"] /\
  calls_getNext 4 three
  = Ok (with_i three 4,
        [Some "|rig|rigShape"; Some "|rock|rockShape"; Some "|tree|treeShape";
         Some "|rig|rigShape"]) /\
  forall flag,
    calls_getNext 4 (with_activation flag three)
    = Ok (with_i (with_activation flag three) 4,
          [Some "|rig|rigShape"; Some "|rock|rockShape"; Some "|tree|treeShape";
           Some "|rig|rigShape"]).
Proof.
  apply (getNext_round_robin three).
  - by_decide.
  - discriminate.
  - reflexivity.
Defined.


End ObjectListFacts.


(** ** The transform sampler *)

Section TransformFacts.
Import PyNum Transform.

Lemma uniform_degenerate a g :
  ((uniform a a g).1 == a)%Q /\
  (uniform a a g).2 = {| stream := stream g; pos := S (pos g) |}.
Proof.
  unfold uniform, random. simpl. split; [|done].
  rewrite Qred_correct. ring.
Qed.

(** C9: with [uniform] set, [getRandomScale] makes one draw and answers it
    three times over, whatever the ranges: each component is the next value
    [u] of the generator taken into the x range, [lo + (hi - lo) * u],
    rounded to three places, and one value is consumed; without it, on
    three ranges that are the same interval [[a, a]], it makes three draws
    and still answers three equal components, each the rounding of [a]. *)
Theorem getRandomScale_equal_components :
  (forall self g,
     let lo := (scale self).1.1.1 in
     let hi := (scale self).1.1.2 in
     let v := round_float (Qred (lo + (hi - lo) * stream g (pos g))) 3 in
     getRandomScale self true g
     = ((v, v, v), {| stream := stream g; pos := S (pos g) |})) /\
  (forall rot a uj vj g,
     getRandomScale
       {| rotate := rot; scale := ((a, a), (a, a), (a, a));
          uJitter := uj; vJitter := vj |} false g
     = ((round_float a 3, round_float a 3, round_float a 3),
        {| stream := stream g; pos := S (S (S (pos g))) |})).
Proof.
  split.
  - intros self g. unfold getRandomScale.
    destruct (scale self) as [[x y] z]. reflexivity.
  - intros rot a uj vj g. unfold getRandomScale. cbn [scale fst snd].
    destruct (uniform a a g) as [rx g1] eqn:H1.
    destruct (uniform a a g1) as [ry g2] eqn:H2.
    destruct (uniform a a g2) as [rz g3] eqn:H3.
    destruct (uniform_degenerate a g) as [Ex Eg1].
    destruct (uniform_degenerate a g1) as [Ey Eg2].
    destruct (uniform_degenerate a g2) as [Ez Eg3].
    rewrite H1 in Ex, Eg1. rewrite H2 in Ey, Eg2. rewrite H3 in Ez, Eg3.
    simpl in *. subst g1 g2 g3. simpl.
    by rewrite (round_float_proper _ _ Ex 3%nat _ eq_refl),
               (round_float_proper _ _ Ey 3%nat _ eq_refl),
               (round_float_proper _ _ Ez 3%nat _ eq_refl).
Qed.

End TransformFacts.


(** ** The tool options *)

Section ToolOptionFacts.
Import PyNum ToolOption Samples.
Variable str_to_int : string -> outcome Z.
Implicit Types (self : gmap string pyval) (store : gmap string optval)
  (r : row) (rows : list row).

Lemma table_names : NoDup (map row_name sp3dOptionVars).
Proof. by_decide. Qed.

Lemma table_vars : NoDup (map row_var sp3dOptionVars).
Proof. by_decide. Qed.

Lemma table_types :
  Forall (fun r => row_type r = "iv" \/ row_type r = "fv") sp3dOptionVars.
Proof. by_decide. Qed.

Lemma table_version r :
  r ∈ sp3dOptionVars ->
  row_name r = "sp3dVersion" ->
  r = ("sp3dVersion", ("fv", spPaint3dVersion, "version")).
Proof.
  intros Hin Hname. unfold sp3dOptionVars in Hin.
  repeat (apply elem_of_cons in Hin as [-> | Hin];
          [by (discriminate Hname || reflexivity)|]).
  by apply elem_of_nil in Hin.
Qed.

(** *** Loading *)

Lemma loadVars_loop_step store r rows self :
  loadVars_loop store (r :: rows) self
  = loadVars_loop store rows
      (match load_value store r with
       | Some w => <[row_var r := w]> self
       | None => self
       end).
Proof.
  destruct r as [name [[type d] var]]. unfold load_value. simpl.
  by repeat case_decide.
Qed.

Lemma loadVars_loop_notin store rows self a :
  a ∉ map row_var rows -> loadVars_loop store rows self !! a = self !! a.
Proof.
  revert self. induction rows as [|r rows IH]; intros self Ha; [done|].
  rewrite loadVars_loop_step. simpl in Ha.
  apply not_elem_of_cons in Ha as [Hne Ha]. rewrite IH by done.
  destruct (load_value store r); [|done]. by rewrite lookup_insert_ne.
Qed.

Lemma loadVars_loop_in store rows self r w :
  NoDup (map row_var rows) ->
  r ∈ rows ->
  load_value store r = Some w ->
  loadVars_loop store rows self !! row_var r = Some w.
Proof.
  revert self. induction rows as [|r0 rows IH]; intros self Hnd Hin Hw.
  { by apply elem_of_nil in Hin. }
  rewrite loadVars_loop_step. simpl in Hnd.
  apply NoDup_cons in Hnd as [Hfresh Hnd].
  apply elem_of_cons in Hin as [<- | Hin].
  - rewrite loadVars_loop_notin by done. rewrite Hw.
    by rewrite lookup_insert_eq.
  - by apply IH.
Qed.

(** *** Writing *)

Lemma write_rows_notin f rows store store' name :
  name ∉ map row_name rows ->
  write_rows f rows store = Ok store' ->
  store' !! name = store !! name.
Proof.
  revert store. induction rows as [|r rows IH]; intros store Hn Hw; simpl in *.
  { by inversion Hw. }
  apply not_elem_of_cons in Hn as [Hne Hn].
  destruct (f r) as [w|]; simpl in Hw; [|done].
  rewrite (IH _ Hn Hw). destruct w; [|done]. by rewrite lookup_insert_ne.
Qed.

Lemma write_rows_in f rows store store' r :
  NoDup (map row_name rows) ->
  r ∈ rows ->
  write_rows f rows store = Ok store' ->
  exists w, f r = Ok w /\
    store' !! row_name r
    = match w with Some o => Some o | None => store !! row_name r end.
Proof.
  revert store. induction rows as [|r0 rows IH]; intros store Hnd Hin Hw.
  { by apply elem_of_nil in Hin. }
  simpl in *. apply NoDup_cons in Hnd as [Hfresh Hnd].
  destruct (f r0) as [w0|] eqn:Hf; simpl in Hw; [|done].
  apply elem_of_cons in Hin as [-> | Hin].
  - exists w0. split; [done|].
    rewrite (write_rows_notin _ _ _ _ _ Hfresh Hw).
    destruct w0; [|done]. by rewrite lookup_insert_eq.
  - destruct (IH _ Hnd Hin Hw) as (w & Hfr & Hl). exists w. split; [done|].
    rewrite Hl. destruct w; [done|].
    destruct w0; [|done]. rewrite lookup_insert_ne; [done|].
    intros Heq. apply Hfresh. rewrite Heq.
    by apply (list_elem_of_fmap_2 row_name).
Qed.

Lemma write_rows_returns f rows store :
  Forall (fun r => returns (f r)) rows -> returns (write_rows f rows store).
Proof.
  revert store. induction rows as [|r rows IH]; intros store Hall; simpl.
  { by exists store. }
  apply Forall_cons in Hall as [[w ->] Hall]. simpl. by apply IH.
Qed.

Lemma commitVars_loop_write self rows store :
  commitVars_loop str_to_int self rows store
  = write_rows (commit_value str_to_int self) rows store.
Proof.
  revert store. induction rows as [|[name [[type d] var]] rows IH];
    intros store; [done|].
  simpl. unfold commit_value, row_type, row_var, row_name. simpl.
  repeat case_decide; simpl; try apply IH.
  - destruct (attr self var) as [v|]; simpl; [|done].
    destruct (py_int str_to_int v); simpl; [apply IH | done].
  - destruct (attr self var) as [v|]; simpl; [|done].
    unfold optionVar_fv. destruct (to_float v); simpl; [apply IH | done].
Qed.

Lemma resetVars_loop_write rows store :
  resetVars_loop rows store = write_rows reset_value rows store.
Proof.
  revert store. induction rows as [|[name [[type d] var]] rows IH];
    intros store; [done|].
  simpl. unfold reset_value, row_type, row_value, row_name. simpl.
  repeat case_decide; simpl; try apply IH.
  - destruct d; simpl; try done; apply IH.
  - unfold optionVar_fv. destruct (to_float d); simpl; [apply IH | done].
Qed.

Lemma loadVars_in self store r w :
  r ∈ sp3dOptionVars ->
  load_value store r = Some w ->
  loadVars self store !! row_var r = Some w.
Proof. exact (loadVars_loop_in store sp3dOptionVars self r w table_vars). Qed.

Lemma loadVars_notin self store a :
  a ∉ map row_var sp3dOptionVars -> loadVars self store !! a = self !! a.
Proof. exact (loadVars_loop_notin store sp3dOptionVars self a). Qed.

(** *** Validation *)

Lemma checkVars_loop_false store rows :
  checkVars_loop store rows = false <->
  exists r, r ∈ rows /\
    (store !! row_name r = None \/
     (row_name r = "sp3dVersion" /\
      py_ne (optionVar_q store (row_name r)) (row_value r) = true)).
Proof.
  induction rows as [|[name [[type d] var]] rows IH]; simpl.
  { split; [done | intros (r & Hr & _); by apply elem_of_nil in Hr]. }
  unfold optionVar_exists.
  destruct (store !! name) as [o|] eqn:Hname; simpl.
  - destruct (bool_decide (name = "sp3dVersion")
              && py_ne (optionVar_q store name) d) eqn:Hver.
    + split; [|done]. intros _. apply andb_true_iff in Hver as [Hn Hne].
      apply bool_decide_eq_true in Hn.
      exists (name, (type, d, var)). split; [left|]. by right.
    + rewrite IH. split; intros (r & Hr & Hbad).
      * exists r. split; [by right | done].
      * apply elem_of_cons in Hr as [-> | Hr]; [|by exists r].
        unfold row_name, row_value in Hbad. simpl in Hbad.
        destruct Hbad as [Hnone | [Hn Hne]]; [congruence|].
        rewrite Hne, bool_decide_eq_true_2 in Hver by done. done.
  - split; [|done]. intros _.
    exists (name, (type, d, var)). split; [left|]. by left.
Qed.

Lemma reset_value_table r :
  r ∈ sp3dOptionVars ->
  exists o w,
    reset_value r = Ok (Some o) /\
    (forall store, store !! row_name r = Some o -> load_value store r = Some w) /\
    py_eq w (row_value r) = true /\
    (row_name r = "sp3dVersion" -> py_ne o spPaint3dVersion = false).
Proof.
  intros Hin. unfold sp3dOptionVars in Hin.
  repeat (apply elem_of_cons in Hin as [-> | Hin];
    [ eexists _, _; split; [reflexivity|]; split;
      [ intros store Hs; unfold load_value, optionVar_q, row_name in *;
        simpl in *; rewrite Hs; reflexivity
      | split; [vm_compute; reflexivity | intros Hn; try discriminate Hn;
                                          vm_compute; reflexivity] ]
    |]).
  by apply elem_of_nil in Hin.
Qed.

Lemma resetVars_lookup self store :
  exists store',
    resetVars self store = Ok (loadVars self store', store') /\
    forall r, r ∈ sp3dOptionVars ->
      exists o w,
        store' !! row_name r = Some o /\
        loadVars self store' !! row_var r = Some w /\
        (forall self0, loadVars self0 store' !! row_var r = Some w) /\
        py_eq w (row_value r) = true /\
        (row_name r = "sp3dVersion" -> py_ne o spPaint3dVersion = false).
Proof.
  unfold resetVars. rewrite resetVars_loop_write.
  destruct (write_rows_returns reset_value sp3dOptionVars store) as [store' Hw].
  { apply Forall_forall. intros r Hr.
    destruct (reset_value_table r Hr) as (o & w & -> & _). by eexists. }
  exists store'. rewrite Hw. split; [reflexivity|].
  intros r Hr.
  destruct (reset_value_table r Hr) as (o & w & Hreset & Hload & Heq & Hver).
  destruct (write_rows_in _ _ _ _ r table_names Hr Hw) as (w0 & Hw0 & Hl).
  rewrite Hreset in Hw0. inversion Hw0; subst w0.
  exists o, w.
  split; [exact Hl|]. split; [|split; [|split; [exact Heq | exact Hver]]].
  - exact (loadVars_in self store' r w Hr (Hload store' Hl)).
  - intros self0. exact (loadVars_in self0 store' r w Hr (Hload store' Hl)).
Qed.

Lemma init_attrs_numbers r :
  r ∈ sp3dOptionVars ->
  exists v, init_attrs !! row_var r = Some v /\ is_number v = true.
Proof.
  intros Hin. unfold sp3dOptionVars in Hin.
  repeat (apply elem_of_cons in Hin as [-> | Hin];
          [eexists; split; reflexivity|]).
  by apply elem_of_nil in Hin.
Qed.

Lemma commit_value_returns self r :
  r ∈ sp3dOptionVars ->
  (exists v, self !! row_var r = Some v /\ is_number v = true) ->
  returns (commit_value str_to_int self r).
Proof.
  intros Hr (v & Hv & Hnum). unfold commit_value, attr. rewrite Hv. simpl.
  repeat case_decide; try by eexists.
  - destruct v; try done; by eexists.
  - destruct v; try done; by eexists.
Qed.

Lemma commitVars_returns self store :
  (forall r, r ∈ sp3dOptionVars ->
     exists v, self !! row_var r = Some v /\ is_number v = true) ->
  returns (commitVars str_to_int self store).
Proof.
  intros Hnum. unfold commitVars. rewrite commitVars_loop_write.
  apply write_rows_returns, Forall_forall. intros r Hr.
  by apply commit_value_returns, Hnum.
Qed.

(** C3: [checkVars] answers [False] exactly when a name of the table is
    missing from the store or the stored version is not the running one; on
    that answer [__init__] loads nothing from the store and keeps every
    attribute as it assigned it; [resetVars] always returns, leaves a store
    that [checkVars] accepts, and a load from that store gives every
    attribute of the table a value equal to its default.  A store saved by
    version 2021.0 is refused; after [resetVars] it is accepted, holds
    version 2022.0, and the attributes are the defaults of the table. *)
Theorem checkVars_resetVars :
  (forall store,
     checkVars store = false <->
     (exists r, r ∈ sp3dOptionVars /\ store !! row_name r = None) \/
     (exists o, store !! "sp3dVersion" = Some o /\
                py_ne o spPaint3dVersion = true)) /\
  (forall store,
     checkVars store = false ->
     exists store', init str_to_int store = Ok (init_attrs, store')) /\
  (forall self store,
     exists self' store',
       resetVars self store = Ok (self', store') /\
       checkVars store' = true /\
       loadVars self' store' = self' /\
       forall r, r ∈ sp3dOptionVars ->
         exists w, loadVars self' store' !! row_var r = Some w /\
                   py_eq w (row_value r) = true) /\
  checkVars stored_2021 = false /\
  match resetVars init_attrs stored_2021 with
  | Ok (self', store') =>
      checkVars store' = true /\
      store' !! "sp3dVersion" = Some (OFloat 2022) /\
      self' !! "version" = Some (VFloat 2022) /\
      self' !! "paintTimer" = Some (VFloat (1 # 20)) /\
      self' !! "smoothNormal" = Some (VBool true)
  | Raise _ => False
  end.
Proof.
  assert (forall store,
     checkVars store = false <->
     (exists r, r ∈ sp3dOptionVars /\ store !! row_name r = None) \/
     (exists o, store !! "sp3dVersion" = Some o /\
                py_ne o spPaint3dVersion = true)) as Hcheck.
  { intros store. unfold checkVars. rewrite checkVars_loop_false. split.
    - intros (r & Hr & [Hnone | [Hn Hne]]); [left; by exists r|].
      pose proof (table_version r Hr Hn) as ->.
      unfold row_name, row_value, optionVar_q in Hne. simpl in Hne.
      destruct (store !! "sp3dVersion") as [o|] eqn:Ho.
      + right. by exists o.
      + left. by exists ("sp3dVersion", ("fv", spPaint3dVersion, "version")).
    - intros [(r & Hr & Hnone) | (o & Ho & Hne)].
      + exists r. split; [done | by left].
      + exists ("sp3dVersion", ("fv", spPaint3dVersion, "version")).
        split; [by_decide|]. right. split; [done|].
        unfold row_name, row_value, optionVar_q. simpl. by rewrite Ho. }
  split; [exact Hcheck|]. split; [|split; [|split]].
  - intros store Hbad. unfold init. rewrite Hbad.
    destruct (commitVars_returns init_attrs store init_attrs_numbers)
      as [store' Hc].
    exists store'. rewrite Hc. reflexivity.
  - intros self store.
    destruct (resetVars_lookup self store) as (store' & Hreset & Hrows).
    exists (loadVars self store'), store'. split; [exact Hreset|].
    split; [|split].
    + destruct (checkVars store') eqn:Hc; [reflexivity|]. exfalso.
      apply Hcheck in Hc as [(r & Hr & Hnone) | (o & Ho & Hne)].
      * destruct (Hrows r Hr) as (o & _ & Ho & _). congruence.
      * destruct (Hrows ("sp3dVersion", ("fv", spPaint3dVersion, "version")))
          as (o' & _ & Ho' & _ & _ & _ & Hver); [by_decide|].
        change (store' !! "sp3dVersion" = Some o') in Ho'.
        rewrite Ho in Ho'. inversion Ho'; subst o'.
        rewrite (Hver eq_refl) in Hne. discriminate Hne.
    + apply map_eq. intros a.
      destruct (decide (a ∈ map row_var sp3dOptionVars)) as [Ha | Ha].
      * apply list_elem_of_fmap in Ha as (r & -> & Hr).
        destruct (Hrows r Hr) as (o & w & _ & H1 & H2 & _).
        exact (eq_trans (H2 _) (eq_sym H1)).
      * exact (loadVars_notin _ store' a Ha).
    + intros r Hr. destruct (Hrows r Hr) as (o & w & _ & _ & H2 & Heq & _).
      exists w. split; [exact (H2 _) | exact Heq].
  - vm_compute. reflexivity.
  - vm_compute. repeat split.
Qed.

(** *** Committing and loading again *)

Lemma projection_number type v w :
  projection str_to_int type v = Ok w -> is_number w = true.
Proof.
  unfold projection. case_decide.
  - destruct (py_int str_to_int v); simpl; [|done]. by intros [= <-].
  - destruct (to_float v); simpl; [|done]. by intros [= <-].
Qed.

(** Applying the projection to its own result changes nothing. *)
Lemma projection_idem type v w :
  projection str_to_int type v = Ok w -> projection str_to_int type w = Ok w.
Proof.
  unfold projection. case_decide.
  - destruct (py_int str_to_int v) as [n|]; simpl; [|done]. intros [= <-].
    simpl. by destruct (n =? 0).
  - destruct (to_float v) as [q|]; simpl; [|done]. intros [= <-].
    simpl. by rewrite round_float_idem.
Qed.

(** The float an 'fv' attribute comes back as equals [round(v, 2)]. *)
Lemma projection_fv_round2 v q :
  to_float v = Ok q ->
  exists w, py_round2 v = Ok w /\ py_eq (VFloat (round_float q 2)) w = true.
Proof.
  destruct v as [|b|z|q'|]; simpl; try done; intros [= <-].
  - exists (VInt (if b then 1 else 0)). split; [done|]. by destruct b.
  - exists (VInt z). split; [done|]. simpl.
    apply Qeq_eq_bool, round_float_Z.
  - exists (VFloat (round_float q' 2)). split; [done|]. simpl.
    by apply Qeq_eq_bool.
Qed.

Lemma commit_value_iv self r v n :
  row_type r = "iv" ->
  self !! row_var r = Some v ->
  py_int str_to_int v = Ok n ->
  commit_value str_to_int self r = Ok (Some (OInt n)).
Proof.
  intros Hty Hv Hn. unfold commit_value, attr. rewrite Hty, Hv. simpl.
  rewrite Hn. reflexivity.
Qed.

Lemma commit_value_fv self r v q :
  row_type r = "fv" ->
  self !! row_var r = Some v ->
  to_float v = Ok q ->
  commit_value str_to_int self r = Ok (Some (OFloat q)).
Proof.
  intros Hty Hv Hq. unfold commit_value, attr. rewrite Hty, Hv. simpl.
  rewrite Hq. reflexivity.
Qed.

Lemma load_value_stored store r o :
  row_type r = "iv" \/ row_type r = "fv" ->
  store !! row_name r = Some o ->
  load_value store r
  = Some (if decide (row_type r = "iv") then VBool (bool_of_optval o)
          else round2_of_optval o).
Proof.
  intros Hty Ho. unfold load_value, optionVar_q. rewrite Ho. simpl.
  destruct Hty as [Hty | Hty]; rewrite Hty; reflexivity.
Qed.

Lemma commit_load_lookup self store :
  (forall r, r ∈ sp3dOptionVars ->
     exists v, self !! row_var r = Some v /\ is_number v = true) ->
  exists store',
    commitVars str_to_int self store = Ok store' /\
    (forall r v, r ∈ sp3dOptionVars -> self !! row_var r = Some v ->
       exists w, projection str_to_int (row_type r) v = Ok w /\
                 loadVars self store' !! row_var r = Some w) /\
    (forall a, a ∉ map row_var sp3dOptionVars ->
       loadVars self store' !! a = self !! a).
Proof.
  intros Hnum.
  destruct (commitVars_returns self store Hnum) as [store' Hc].
  exists store'. split; [exact Hc|]. split.
  - intros r v Hr Hv.
    assert (write_rows (commit_value str_to_int self) sp3dOptionVars store
            = Ok store') as Hw.
    { rewrite <- commitVars_loop_write. exact Hc. }
    destruct (write_rows_in _ _ _ _ r table_names Hr Hw) as (w0 & Hw0 & Hl).
    pose proof (proj1 (Forall_forall _ _) table_types r Hr) as Hty.
    destruct (Hnum r Hr) as (v' & Hv' & Hnumv).
    rewrite Hv in Hv'. inversion Hv'; subst v'. clear Hv'.
    destruct Hty as [Hiv | Hfv].
    + assert (exists n, py_int str_to_int v = Ok n) as [n Hn]
        by (destruct v; try discriminate Hnumv; eexists; reflexivity).
      rewrite (commit_value_iv self r v n Hiv Hv Hn) in Hw0.
      inversion Hw0; subst w0.
      exists (VBool (negb (n =? 0))). split.
      * unfold projection. rewrite Hiv. simpl. rewrite Hn. reflexivity.
      * apply (loadVars_in self store' r _ Hr).
        rewrite (load_value_stored store' r (OInt n) (or_introl Hiv) Hl).
        rewrite Hiv. reflexivity.
    + assert (exists q, to_float v = Ok q) as [q Hq]
        by (destruct v; try discriminate Hnumv; eexists; reflexivity).
      rewrite (commit_value_fv self r v q Hfv Hv Hq) in Hw0.
      inversion Hw0; subst w0.
      exists (VFloat (round_float q 2)). split.
      * unfold projection. rewrite Hfv. simpl. rewrite Hq. reflexivity.
      * apply (loadVars_in self store' r _ Hr).
        rewrite (load_value_stored store' r (OFloat q) (or_intror Hfv) Hl).
        rewrite Hfv. reflexivity.
  - intros a Ha. exact (loadVars_notin self store' a Ha).
Qed.

(** C10: on attributes that hold numbers, [commitVars] returns, and a
    [loadVars] after it gives every 'iv' attribute the value [bool(int(v))]
    of its value [v] before, every 'fv' attribute the float [v] rounded to
    two places, equal to [round(v, 2)], and leaves every attribute outside
    the table, [groupID] among them, as it was; doing both once more changes
    no attribute. *)
Theorem commit_load_projection self store :
  (forall r, r ∈ sp3dOptionVars ->
     exists v, self !! row_var r = Some v /\ is_number v = true) ->
  exists store',
    commitVars str_to_int self store = Ok store' /\
    (forall r v, r ∈ sp3dOptionVars -> self !! row_var r = Some v ->
       (row_type r = "iv" ->
        exists n, py_int str_to_int v = Ok n /\
          loadVars self store' !! row_var r = Some (VBool (negb (n =? 0)))) /\
       (row_type r = "fv" ->
        exists q w, to_float v = Ok q /\
          loadVars self store' !! row_var r = Some (VFloat (round_float q 2)) /\
          py_round2 v = Ok w /\
          py_eq (VFloat (round_float q 2)) w = true)) /\
    (forall a, a ∉ map row_var sp3dOptionVars ->
       loadVars self store' !! a = self !! a) /\
    loadVars self store' !! "groupID" = self !! "groupID" /\
    exists store'',
      commitVars str_to_int (loadVars self store') store' = Ok store'' /\
      loadVars (loadVars self store') store'' = loadVars self store'.
Proof.
  intros Hnum.
  destruct (commit_load_lookup self store Hnum) as (store' & Hc & Hin & Hout).
  exists store'. split; [exact Hc|]. split; [|split; [exact Hout|split]].
  - intros r v Hr Hv. destruct (Hin r v Hr Hv) as (w & Hp & Hl).
    unfold projection in Hp. split; intros Hty; rewrite Hty in Hp; simpl in Hp.
    + destruct (py_int str_to_int v) as [n|]; simpl in Hp; [|discriminate Hp].
      inversion Hp; subst w. exists n. split; [reflexivity | exact Hl].
    + destruct (to_float v) as [q|] eqn:Hq; simpl in Hp; [|discriminate Hp].
      inversion Hp; subst w.
      destruct (projection_fv_round2 v q Hq) as (w & Hw & Heq).
      exists q, w. split; [reflexivity|]. split; [exact Hl|].
      split; [exact Hw | exact Heq].
  - apply Hout. by_decide.
  - assert (forall r, r ∈ sp3dOptionVars ->
              exists v, loadVars self store' !! row_var r = Some v /\
                        is_number v = true) as Hnum'.
    { intros r Hr. destruct (Hnum r Hr) as (v & Hv & _).
      destruct (Hin r v Hr Hv) as (w & Hp & Hl).
      exists w. split; [exact Hl|]. exact (projection_number _ _ _ Hp). }
    destruct (commit_load_lookup (loadVars self store') store' Hnum')
      as (store'' & Hc' & Hin' & Hout').
    exists store''. split; [exact Hc'|].
    apply map_eq. intros a.
    destruct (decide (a ∈ map row_var sp3dOptionVars)) as [Ha | Ha].
    + apply list_elem_of_fmap in Ha as (r & -> & Hr).
      destruct (Hnum r Hr) as (v & Hv & _).
      destruct (Hin r v Hr Hv) as (w & Hp & Hl).
      destruct (Hin' r w Hr Hl) as (w' & Hp' & Hl').
      rewrite (projection_idem _ _ _ Hp) in Hp'. inversion Hp'; subst w'.
      exact (eq_trans Hl' (eq_sym Hl)).
    + exact (Hout' a Ha).
Qed.

End ToolOptionFacts.

Section ToolOptionSamples.
Import PyNum ToolOption Samples.

Lemma commit_load_projection_witness :
  exists store',
    commitVars no_str_to_int edited_attrs ∅ = Ok store' /\
    (forall r v, r ∈ sp3dOptionVars -> edited_attrs !! row_var r = Some v ->
       (row_type r = "iv" ->
        exists n, py_int no_str_to_int v = Ok n /\
          loadVars edited_attrs store' !! row_var r
          = Some (VBool (negb (n =? 0)))) /\
       (row_type r = "fv" ->
        exists q w, to_float v = Ok q /\
          loadVars edited_attrs store' !! row_var r
          = Some (VFloat (round_float q 2)) /\
          py_round2 v = Ok w /\
          py_eq (VFloat (round_float q 2)) w = true)) /\
    (forall a, a ∉ map row_var sp3dOptionVars ->
       loadVars edited_attrs store' !! a = edited_attrs !! a) /\
    loadVars edited_attrs store' !! "groupID" = edited_attrs !! "groupID" /\
    exists store'',
      commitVars no_str_to_int (loadVars edited_attrs store') store' = Ok store'' /\
      loadVars (loadVars edited_attrs store') store''
      = loadVars edited_attrs store'.
Proof.
  apply (commit_load_projection no_str_to_int edited_attrs ∅).
  intros r Hin. unfold sp3dOptionVars in Hin.
  repeat (apply elem_of_cons in Hin as [-> | Hin];
          [eexists; split; reflexivity|]).
  by apply elem_of_nil in Hin.
Defined.

End ToolOptionSamples.

(** The distance 12.3456 of the edited attributes comes back as 12.35, the
    ramp mode 2 as the float 2, and the group name is kept. *)
Example commit_load_edited :
  match ToolOption.commit_load Samples.no_str_to_int Samples.edited_attrs ∅ with
  | Ok (self', _) =>
      self' !! "paintDistance" = Some (PyNum.VFloat (247 # 20)) /\
      self' !! "rampFX" = Some (PyNum.VFloat 2) /\
      self' !! "smoothNormal" = Some (PyNum.VBool false) /\
      self' !! "groupID" = Some (PyNum.VStr "spPaint3dOutput")
  | Raise _ => False
  end.
Proof. vm_compute. repeat split. Qed.

(** * Further properties *)

(** ** Dictionaries, continued *)

Section PyDictMore.
Context {V : Type}.
Implicit Types (d : list (string * V)) (k : string) (v : V).

Lemma get_snoc_old k k' v d :
  k ∈ PyDict.keys d -> PyDict.get k (d ++ [(k', v)]) = PyDict.get k d.
Proof.
  unfold PyDict.keys. induction d as [|[k0 v0] d IH]; simpl; intros Hk.
  - by apply elem_of_nil in Hk.
  - case_decide; [done|]. apply IH.
    apply elem_of_cons in Hk as [?|?]; [congruence | done].
Qed.

Lemma get_snoc_new k v d :
  k ∉ PyDict.keys d -> PyDict.get k (d ++ [(k, v)]) = Some v.
Proof.
  unfold PyDict.keys. induction d as [|[k0 v0] d IH]; simpl; intros Hk.
  - by case_decide.
  - apply not_elem_of_cons in Hk as [Hne Hk]. case_decide; [congruence|]. by apply IH.
Qed.

Lemma get_remove_ne k k' d :
  k' <> k -> PyDict.get k' (PyDict.remove k d) = PyDict.get k' d.
Proof.
  intros Hne. induction d as [|[k0 v0] d IH]; simpl; [done|].
  destruct (decide (k = k0)) as [->|Hk].
  - by rewrite decide_False.
  - simpl. by rewrite IH.
Qed.

Lemma keys_remove_notin k d :
  NoDup (PyDict.keys d) -> k ∉ PyDict.keys (PyDict.remove k d).
Proof.
  unfold PyDict.keys. induction d as [|[k0 v0] d IH]; simpl; intros Hnd.
  - apply not_elem_of_nil.
  - apply NoDup_cons in Hnd as [Hfresh Hnd].
    destruct (decide (k = k0)) as [->|Hk]; [done|].
    simpl. apply not_elem_of_cons. split; [done | by apply IH].
Qed.

Lemma keys_remove_sub k k' d :
  k' ∈ PyDict.keys (PyDict.remove k d) -> k' ∈ PyDict.keys d.
Proof.
  unfold PyDict.keys. induction d as [|[k0 v0] d IH]; simpl; [done|].
  destruct (decide (k = k0)) as [->|Hk]; simpl.
  - intros ?. by right.
  - intros Hin. apply elem_of_cons in Hin as [->|Hin]; [left | right; by apply IH].
Qed.

Lemma keys_remove_NoDup k d :
  NoDup (PyDict.keys d) -> NoDup (PyDict.keys (PyDict.remove k d)).
Proof.
  unfold PyDict.keys. induction d as [|[k0 v0] d IH]; simpl; intros Hnd; [done|].
  apply NoDup_cons in Hnd as [Hfresh Hnd].
  destruct (decide (k = k0)) as [->|Hk]; [done|].
  simpl. apply NoDup_cons. split; [|by apply IH].
  intros Hin. apply Hfresh. by eapply keys_remove_sub.
Qed.

Lemma keys_remove_length k d :
  k ∈ PyDict.keys d ->
  S (length (PyDict.keys (PyDict.remove k d))) = length (PyDict.keys d).
Proof.
  unfold PyDict.keys. induction d as [|[k0 v0] d IH]; simpl; intros Hin.
  - by apply elem_of_nil in Hin.
  - destruct (decide (k = k0)) as [->|Hk]; [done|].
    simpl. f_equal. apply IH.
    apply elem_of_cons in Hin as [?|?]; [congruence | done].
Qed.

(** The items of a text list after [removeItem] are the keys after [del]. *)
Lemma removeItem_keys k d :
  Window.removeItem k (PyDict.keys d) = PyDict.keys (PyDict.remove k d).
Proof.
  unfold PyDict.keys. induction d as [|[k0 v0] d IH]; csimpl; [done|].
  destruct (decide (k = k0)); [done|]. csimpl. by f_equal.
Qed.
End PyDictMore.

(** ** The object registry, continued *)

Section ObjectListMore.
Import ObjectList Samples.
Implicit Types (self other : sp3dObjectList) (sc : scene).

(** The two ways [addObj] returns: a refusal that leaves the registry as it
    was, or a new last entry under the key the candidate resolves to. *)
Lemma addObj_cases sc self o act p al self' r :
  addObj sc self o act p al = Ok (self', r) ->
  (self' = self /\ exists msg, r = (None, Reason msg)) \/
  (exists k d,
     r = (Some k, Added) /\ (o ∉ keys self) /\ (k ∉ keys self) /\
     resolves sc self o k /\ returns (childShapes sc o) /\
     getDAGPath sc k true = Ok d /\
     self' = with_obj self (obj self ++ [(k, mk_entry d act p al)])).
Proof.
  unfold addObj. intros H.
  destruct (alreadyExists self o) eqn:Ho.
  { inversion H; subst. left. split; [done | by eexists]. }
  apply alreadyExists_false in Ho.
  destruct (objectType sc o) as [objtype|] eqn:Ht; simpl in H; [|done].
  destruct (childShapes sc o) as [objchild|] eqn:Hc; simpl in H; [|done].
  destruct (decide (objtype ∈ auth self)) as [Hin|Hnin].
  { destruct (getDAGPath sc o true) as [d|] eqn:Hd; simpl in H; [|done].
    inversion H; subst. right. exists o, d.
    repeat split; try done.
    - by eapply resolves_self.
    - by eexists.
    - by rewrite set_fresh. }
  destruct (decide (objtype = "transform")) as [->|Hnt].
  2: { inversion H; subst. left. split; [done | by eexists]. }
  destruct objchild as [[|ch [|? ?]]|];
    try (inversion H; subst; left; split; [done | by eexists]).
  destruct (nodeType sc ch) as [ctype|] eqn:Hct; simpl in H; [|done].
  destruct (decide (ctype ∈ auth self)) as [Hcin|Hcnin].
  2: { inversion H; subst. left. split; [done | by eexists]. }
  destruct (alreadyExists self ch) eqn:Hch.
  { inversion H; subst. left. split; [done | by eexists]. }
  apply alreadyExists_false in Hch.
  destruct (getDAGPath sc ch true) as [d|] eqn:Hd; simpl in H; [|done].
  inversion H; subst. right. exists ch, d.
  repeat split; try done.
  - by eapply resolves_child.
  - by eexists.
  - by rewrite set_fresh.
Qed.

(** X1: whatever [addObj] returns, it leaves the index, the authorized
    types and the error handle alone, keeps every entry the registry had
    under its key, and keeps the keys distinct; a refusal leaves the whole
    registry as it was, and an accepted key is a key afterwards, holding
    the activation, probability and alignment that were passed. *)
Theorem addObj_frame sc self o act p al self' r :
  addObj sc self o act p al = Ok (self', r) ->
  i self' = i self /\
  auth self' = auth self /\
  errorHandle self' = errorHandle self /\
  (forall k, k ∈ keys self ->
     PyDict.get k (obj self') = PyDict.get k (obj self)) /\
  (PyDict.wf (obj self) -> PyDict.wf (obj self')) /\
  (r.1 = None -> self' = self) /\
  (forall k, r.1 = Some k ->
     exists d, PyDict.get k (obj self') = Some (mk_entry d act p al)).
Proof.
  intros H.
  destruct (addObj_cases _ _ _ _ _ _ _ _ H)
    as [[-> [msg ->]] | (k & d & -> & Ho & Hk & _ & _ & _ & ->)].
  - split; [done|]. split; [done|]. split; [done|]. split; [done|].
    split; [done|]. split; [done|]. intros k Hk. discriminate Hk.
  - split; [done|]. split; [done|]. split; [done|]. simpl.
    split; [|split; [|split]].
    + intros k' Hk'. by apply get_snoc_old.
    + unfold PyDict.wf. rewrite keys_snoc. intros Hnd.
      apply NoDup_app. split; [done|]. split; [|apply NoDup_singleton].
      intros x Hx Hx'. apply list_elem_of_singleton in Hx'. by subst.
    + intros Hnone. discriminate Hnone.
    + intros k' Hk'. inversion Hk'; subst k'. exists d. by apply get_snoc_new.
Qed.

Lemma addObj_frame_witness :
  let self' := with_obj target0
      [("treeShape", mk_entry (Some "|tree|treeShape") true (1 # 2) "Up")] in
  i self' = i target0 /\
  auth self' = auth target0 /\
  errorHandle self' = errorHandle target0 /\
  (forall k, k ∈ keys target0 ->
     PyDict.get k (obj self') = PyDict.get k (obj target0)) /\
  (PyDict.wf (obj target0) -> PyDict.wf (obj self')) /\
  ((Some "treeShape", Added).1 = None -> self' = target0) /\
  (forall k, (Some "treeShape", Added).1 = Some k ->
     exists d, PyDict.get k (obj self') = Some (mk_entry d true (1 # 2) "Up")).
Proof.
  apply (addObj_frame garden target0 "tree" true (1 # 2) "Up").
  vm_compute. reflexivity.
Defined.

(** X2: [addObj] accepts a candidate under the key [k] exactly when neither
    the candidate nor [k] is a key yet, the candidate resolves to [k] (it is
    of an authorized type itself, or a transform whose only child shape [k]
    is), and the scene answers the queries for the children and for the DAG
    path of [k]. *)
Theorem addObj_accepts_iff sc self o act p al k :
  (exists self' c, addObj sc self o act p al = Ok (self', (Some k, c))) <->
  (o ∉ keys self) /\ (k ∉ keys self) /\ resolves sc self o k /\
  returns (childShapes sc o) /\ returns (getDAGPath sc k true).
Proof.
  split.
  - intros (self' & c & H).
    destruct (addObj_cases _ _ _ _ _ _ _ _ H)
      as [[_ [msg Hr]] | (k' & d & Hr & Ho & Hk & Hres & Hch & Hd & _)];
      [discriminate Hr|].
    inversion Hr; subst k' c. repeat split; try done. by exists d.
  - intros (Ho & Hk & Hres & [ch Hch] & [d Hd]).
    apply alreadyExists_false in Ho. apply alreadyExists_false in Hk.
    unfold addObj. rewrite Ho.
    destruct Hres as [t Ht Hin | c t Ht Hno Hsh Hc Hin].
    + rewrite Ht, Hch. simpl. rewrite decide_True by done.
      rewrite Hd. simpl. by eexists _, _.
    + rewrite Ht, Hsh. simpl. rewrite decide_False by done.
      rewrite Hc. simpl. rewrite decide_True by done.
      rewrite Hk, Hd. simpl. by eexists _, _.
Qed.

(** X3: [delObj] on a name that is no key raises [KeyError]; on a key of a
    registry with distinct keys it returns, the key is gone, there is one
    key less, every other key keeps its entry, the keys stay distinct, and
    the round-robin index is not touched. *)
Theorem delObj_spec self k :
  (k ∉ keys self -> delObj self k = Raise "KeyError") /\
  (k ∈ keys self -> PyDict.wf (obj self) ->
   exists self',
     delObj self k = Ok self' /\
     (k ∉ keys self') /\
     S (length (keys self')) = length (keys self) /\
     (forall k', k' <> k ->
        PyDict.get k' (obj self') = PyDict.get k' (obj self)) /\
     PyDict.wf (obj self') /\
     i self' = i self /\ auth self' = auth self).
Proof.
  unfold delObj, PyDict.delitem, keys. split.
  - intros Hk. apply mem_false in Hk. by rewrite Hk.
  - intros Hk Hwf. pose proof Hk as Hm. apply mem_true in Hm. rewrite Hm. simpl.
    eexists. split; [done|]. simpl. repeat split.
    + by apply keys_remove_notin.
    + by apply keys_remove_length.
    + intros k' Hne. by apply get_remove_ne.
    + by apply keys_remove_NoDup.
Qed.

(** X4: after [clrObj] the registry has no key and the index is 0; on such a
    registry [getNext] raises [ZeroDivisionError], [getRandom] raises
    [ValueError] on every draw, [validateObjects] answers [False] without
    asking the scene, and [hasDuplicate] is [False] against any registry,
    either way round. *)
Theorem clrObj_empty sc self :
  let e := clrObj self in
  keys e = [] /\ i e = 0 /\ auth e = auth self /\
  getNext e = Raise "ZeroDivisionError" /\
  (forall weighted draw, getRandom e weighted draw = Raise "ValueError") /\
  validateObjects sc e = ([], Ok (e, false)) /\
  (forall other, hasDuplicate e other = false /\ hasDuplicate other e = false).
Proof.
  intros e. do 4 (split; [reflexivity|]).
  split; [intros; reflexivity|]. split; [reflexivity|].
  intros other. split; [|reflexivity].
  destruct (hasDuplicate e other) eqn:E; [|done].
  apply hasDuplicate_loop_true in E as (k & _ & Hk). by apply elem_of_nil in Hk.
Qed.

Lemma rotate_Permutation {A} (n : nat) (l : list A) : rotate n l ≡ₚ l.
Proof.
  unfold rotate. rewrite Permutation_app_comm. by rewrite take_drop.
Qed.

(** The keys [getNext] reads over as many calls as there are keys: the
    sorted keys, rotated to start at the index. *)
Lemma next_keys_rotate self :
  keys self <> [] ->
  let n := length (keys self) in
  let sorted := merge_sort String.le (keys self) in
  map (fun t => next_key self (i self + Z.of_nat t)) (seq 0 n)
  = rotate (Z.to_nat (i self `mod` Z.of_nat n)) sorted.
Proof.
  intros Hne n sorted.
  assert (length sorted = n) as Hlen by apply sorted_keys_length.
  assert (0 < n)%nat as Hpos.
  { unfold n. destruct (keys self); [done | simpl; lia]. }
  apply list_eq. intros t.
  change (map ?f ?l) with (f <$> l). rewrite list_lookup_fmap.
  destruct (decide (t < n)%nat) as [Ht | Ht].
  - rewrite lookup_seq_lt by done. simpl.
    rewrite lookup_rotate_r by lia. rewrite Hlen.
    unfold next_key, rotate_nat_add. fold sorted. rewrite Hlen.
    pose proof (Z.mod_pos_bound (i self) (Z.of_nat n) ltac:(lia)) as Hb.
    rewrite Z2Nat.id by lia. rewrite Zplus_mod_idemp_l.
    pose proof (Z.mod_pos_bound (i self + Z.of_nat t) (Z.of_nat n) ltac:(lia)) as Hb'.
    destruct (sorted !! Z.to_nat ((i self + Z.of_nat t) `mod` Z.of_nat n))
      as [k|] eqn:Hk; [done|].
    apply lookup_ge_None in Hk. lia.
  - rewrite lookup_seq_ge by lia. simpl. symmetry.
    apply lookup_ge_None. rewrite length_rotate. lia.
Qed.

(** X5: from any value of the index, as many calls of [getNext] as there
    are keys go once around: they answer the references of the sorted keys,
    rotated to start at the index modulo the number of keys, so every key is
    read exactly once; the index advances by the number of calls. *)
Theorem getNext_any_index self :
  PyDict.wf (obj self) ->
  keys self <> [] ->
  let n := length (keys self) in
  let sorted := merge_sort String.le (keys self) in
  let visited := rotate (Z.to_nat (i self `mod` Z.of_nat n)) sorted in
  visited ≡ₚ keys self /\
  NoDup visited /\
  calls_getNext n self
  = Ok (with_i self (i self + Z.of_nat n), map (ref self) visited).
Proof.
  intros Hwf Hne n sorted visited.
  assert (visited ≡ₚ keys self) as Hperm.
  { unfold visited. rewrite rotate_Permutation. apply merge_sort_Permutation. }
  split; [exact Hperm|]. split.
  { unfold PyDict.wf in Hwf. by rewrite Hperm. }
  rewrite calls_getNext_spec by done. f_equal. f_equal.
  unfold visited, sorted, n. rewrite <- next_keys_rotate by done.
  by rewrite map_map.
Qed.

Lemma getNext_any_index_witness :
  let self := with_i three 7 in
  rotate 1 ["rigShape"; "rockShape"; "treeShape"] ≡ₚ keys self /\
  NoDup (rotate 1 ["rigShape"; "rockShape"; "treeShape"]) /\
  calls_getNext 3 self
  = Ok (with_i self 10,
        [Some "|rock|rockShape"; Some "|tree|treeShape"; Some "|rig|rigShape"]).
Proof.
  apply (getNext_any_index (with_i three 7)).
  - by_decide.
  - discriminate.
Defined.

(** X6: on a registry with a key, [getRandom] answers, for every draw, the
    stored reference of one of the keys, and every key is answered on some
    draw below the number of keys, whatever the [weighted] argument. *)
Theorem getRandom_reaches self :
  keys self <> [] ->
  (forall weighted draw,
     exists k, k ∈ keys self /\ getRandom self weighted draw = Ok (ref self k)) /\
  (forall k, k ∈ keys self ->
     exists draw, 0 <= draw < Z.of_nat (length (keys self)) /\
       forall weighted, getRandom self weighted draw = Ok (ref self k)).
Proof.
  intros Hne. split.
  - intros weighted draw.
    destruct (getRandom_spec self weighted draw Hne) as (k & Hk & Hr).
    exists k. split; [|done]. by eapply list_elem_of_lookup_2.
  - intros k Hk. apply list_elem_of_lookup_1 in Hk as [j Hj].
    pose proof (lookup_lt_Some _ _ _ Hj) as Hlt.
    exists (Z.of_nat j). split; [lia|]. intros weighted.
    destruct (getRandom_spec self weighted (Z.of_nat j) Hne) as (k' & Hk' & Hr).
    rewrite Z.mod_small, Nat2Z.id in Hk' by lia.
    rewrite Hj in Hk'. inversion Hk'; subst k'. exact Hr.
Qed.

Lemma getRandom_reaches_witness :
  (forall weighted draw,
     exists k, k ∈ keys weighted_pair /\
       getRandom weighted_pair weighted draw = Ok (ref weighted_pair k)) /\
  (forall k, k ∈ keys weighted_pair ->
     exists draw, 0 <= draw < Z.of_nat (length (keys weighted_pair)) /\
       forall weighted,
         getRandom weighted_pair weighted draw = Ok (ref weighted_pair k)).
Proof. apply (getRandom_reaches weighted_pair). discriminate. Defined.

Lemma or_empty_singleton x p : or_empty x = [p] -> x = Some [p].
Proof. destruct x as [l|]; simpl; [by intros -> | done]. Qed.

(** X8: [getDAGPath] answers a path only for a transform with exactly one
    child shape, the node itself or, for a node of another type, its only
    parent; the path is the first one the scene lists for the shapes of
    that transform. *)
Theorem getDAGPath_some sc n depth path :
  getDAGPath sc n depth = Ok (Some path) ->
  exists tr c rest,
    objectType sc tr = Ok "transform" /\
    childShapes sc tr = Ok (Some [c]) /\
    (tr = n \/
     exists t, objectType sc n = Ok t /\ t <> "transform" /\
               parents sc n = Ok (Some [tr])) /\
    (if depth then shapesFullPath sc tr else shapesPath sc tr)
    = Ok (Some (path :: rest)).
Proof.
  unfold getDAGPath. intros H.
  destruct (objectType sc n) as [nodetype|] eqn:Ht; simpl in H; [|done].
  assert (forall tr t,
    (do dag <-
       (if decide (t = "transform") then
          do childlist <- childShapes sc tr;
          match or_empty childlist with
          | [_] => if depth then shapesFullPath sc tr else shapesPath sc tr
          | _ => Ok None
          end
        else Ok None);
     match dag with
     | Some (d :: _) => Ok (Some d)
     | _ => Ok None
     end) = Ok (Some path) ->
    t = "transform" /\
    exists c rest,
      childShapes sc tr = Ok (Some [c]) /\
      (if depth then shapesFullPath sc tr else shapesPath sc tr)
      = Ok (Some (path :: rest))) as Hfinal.
  { intros tr t Hrun.
    destruct (decide (t = "transform")) as [-> | Hne]; [|simpl in Hrun; done].
    split; [done|].
    destruct (childShapes sc tr) as [childlist|] eqn:Hc; simpl in Hrun; [|done].
    destruct (or_empty childlist) as [|c [|? ?]] eqn:Hl; simpl in Hrun; try done.
    apply or_empty_singleton in Hl as ->.
    destruct (if depth then shapesFullPath sc tr else shapesPath sc tr)
      as [[[|d rest]|]|] eqn:Hs; simpl in Hrun; try done.
    inversion Hrun; subst d. by exists c, rest. }
  destruct (decide (nodetype <> "transform")) as [Hnt | Hnt].
  - destruct (parents sc n) as [tempdag|] eqn:Hp; simpl in H; [|done].
    destruct (or_empty tempdag) as [|p [|? ?]] eqn:Hl; simpl in H.
    + by destruct (Hfinal n nodetype H) as [-> _].
    + apply or_empty_singleton in Hl as ->.
      destruct (objectType sc p) as [t|] eqn:Htp; simpl in H; [|done].
      destruct (Hfinal p t H) as (-> & c & rest & Hc & Hs).
      exists p, c, rest. split; [done|]. split; [done|]. split; [|done].
      right. by exists nodetype.
    + by destruct (Hfinal n nodetype H) as [-> _].
  - simpl in H.
    destruct (Hfinal n nodetype H) as (-> & c & rest & Hc & Hs).
    exists n, c, rest. split; [done|]. split; [done|]. split; [by left | done].
Qed.

Lemma getDAGPath_some_witness :
  exists tr c rest,
    objectType garden tr = Ok "transform" /\
    childShapes garden tr = Ok (Some [c]) /\
    (tr = "treeShape" \/
     exists t, objectType garden "treeShape" = Ok t /\ t <> "transform" /\
               parents garden "treeShape" = Ok (Some [tr])) /\
    shapesFullPath garden tr = Ok (Some ("|tree|treeShape" :: rest)).
Proof.
  apply (getDAGPath_some garden "treeShape" true "|tree|treeShape").
  vm_compute. reflexivity.
Defined.

(** X9: for a node that is no transform and has exactly one parent, a
    transform, [getDAGPath] answers what it answers for that parent. *)
Theorem getDAGPath_of_shape sc n p t depth :
  objectType sc n = Ok t ->
  t <> "transform" ->
  parents sc n = Ok (Some [p]) ->
  objectType sc p = Ok "transform" ->
  getDAGPath sc n depth = getDAGPath sc p depth.
Proof.
  intros Ht Hne Hp Htp. unfold getDAGPath.
  rewrite Ht, Htp. cbn [obind].
  destruct (decide (t <> "transform")) as [_|]; [|done].
  rewrite Hp. cbn [obind or_empty]. rewrite Htp. cbn [obind].
  destruct (decide ("transform" <> "transform")) as [Hn|_]; [by destruct Hn|].
  reflexivity.
Qed.

Lemma getDAGPath_of_shape_witness :
  getDAGPath garden "treeShape" true = getDAGPath garden "tree" true.
Proof.
  apply (getDAGPath_of_shape garden "treeShape" "tree" "mesh" true).
  - reflexivity.
  - discriminate.
  - reflexivity.
  - reflexivity.
Defined.

End ObjectListMore.

(** ** The transform options, continued *)

Section TransformMore.
Import PyNum Transform Jitter.

Lemma pow10_pos n : (0 < pow10 n)%Q.
Proof.
  unfold pow10. change 0%Q with (inject_Z 0). rewrite <- Zlt_Qlt.
  apply Z.pow_pos_nonneg; lia.
Qed.

(** Rounding half to even never reverses an order. *)
Lemma round_half_even_mono x y :
  (x <= y)%Q -> (round_half_even x <= round_half_even y)%Z.
Proof.
  intros Hxy. pose proof (Qfloor_resp_le x y Hxy) as Hf.
  assert (round_half_even x <= Qfloor x + 1)%Z as Hx.
  { unfold round_half_even.
    destruct (x - inject_Z (Qfloor x) ?= 1 # 2)%Q; [destruct (Z.even _)| |]; lia. }
  assert (Qfloor y <= round_half_even y)%Z as Hy.
  { unfold round_half_even.
    destruct (y - inject_Z (Qfloor y) ?= 1 # 2)%Q; [destruct (Z.even _)| |]; lia. }
  destruct (Z.eq_dec (Qfloor x) (Qfloor y)) as [E | NE]; [|lia].
  unfold round_half_even. rewrite <- E.
  destruct (x - inject_Z (Qfloor x) ?= 1 # 2)%Q eqn:Cx;
    destruct (y - inject_Z (Qfloor x) ?= 1 # 2)%Q eqn:Cy;
    try (destruct (Z.even (Qfloor x))); try lia; exfalso;
    repeat match goal with
           | H : (_ ?= _)%Q = Eq |- _ => apply Qeq_alt in H
           | H : (_ ?= _)%Q = Lt |- _ => apply Qlt_alt in H
           | H : (_ ?= _)%Q = Gt |- _ => apply Qgt_alt in H
           end; lra.
Qed.

Lemma round_float_mono x y n :
  (x <= y)%Q -> (round_float x n <= round_float y n)%Q.
Proof.
  intros Hxy. unfold round_float. apply Qred_le.
  pose proof (pow10_pos n) as Hp.
  apply Qmult_le_compat_r; [|apply Qlt_le_weak, Qinv_lt_0_compat, Hp].
  rewrite <- Zle_Qle. apply round_half_even_mono.
  apply Qmult_le_compat_r; [exact Hxy | by apply Qlt_le_weak].
Qed.

(** [rand.uniform(a, b)] answers a value between [a] and [b], whichever is
    the larger, and consumes one value of the generator. *)
Lemma uniform_between a b g :
  in_unit g ->
  (Qmin a b <= (uniform a b g).1 <= Qmax a b)%Q /\
  (uniform a b g).2 = advanced 1 g.
Proof.
  intros Hg. unfold uniform, random. simpl. split; [|done].
  destruct (Hg (pos g)) as [H0 H1]. rewrite Qred_correct.
  destruct (Qlt_le_dec a b) as [Hab|Hab].
  - rewrite Q.min_l, Q.max_r by lra. split; nra.
  - rewrite Q.min_r, Q.max_l by lra. split; nra.
Qed.

Lemma in_unit_advanced n g : in_unit g -> in_unit (advanced n g).
Proof. intros Hg k. apply Hg. Qed.

(** One rounded draw, as each component of the three methods makes it. *)
Lemma rounded_draw rg g :
  in_unit g ->
  within rg (round_float (uniform rg.1 rg.2 g).1 3) /\
  (uniform rg.1 rg.2 g).2 = advanced 1 g.
Proof.
  intros Hg. destruct (uniform_between rg.1 rg.2 g Hg) as [[Hlo Hhi] Hadv].
  split; [|exact Hadv]. split; by apply round_float_mono.
Qed.

(** X20: with a generator that keeps the contract of [random()],
    [getRandomRotate] answers, for each axis, a value between the two ends
    of the range of that axis rounded to three places, in whichever order
    the ends are given, and consumes three values. *)
Theorem getRandomRotate_bounds self g :
  in_unit g ->
  let r := getRandomRotate self g in
  within (rotate self).1.1 r.1.1.1 /\
  within (rotate self).1.2 r.1.1.2 /\
  within (rotate self).2 r.1.2 /\
  r.2 = advanced 3 g.
Proof.
  intros Hg. unfold getRandomRotate.
  destruct (rotate self) as [[x y] z]. simpl.
  pose proof (in_unit_advanced 1 g Hg) as Hg1.
  pose proof (in_unit_advanced 2 g Hg) as Hg2.
  destruct (rounded_draw x g Hg) as [Hx _].
  destruct (rounded_draw y _ Hg1) as [Hy _].
  destruct (rounded_draw z _ Hg2) as [Hz _].
  split; [exact Hx|]. split; [exact Hy|]. split; [exact Hz|]. reflexivity.
Qed.

Lemma getRandomRotate_bounds_witness :
  let r := getRandomRotate skewed halves in
  within (0, 90)%Q r.1.1.1 /\
  within (180, -180)%Q r.1.1.2 /\
  within (5, 5)%Q r.1.2 /\
  r.2 = advanced 3 halves.
Proof.
  apply (getRandomRotate_bounds skewed halves).
  intros n. split; [unfold Qle; simpl; lia | reflexivity].
Defined.

(** X21: with a generator that keeps the contract of [random()],
    [getRandomScale] in uniform mode answers one value three times, between
    the ends of the x range only, and consumes one value; otherwise each
    component lies between the ends of the range of its own axis, and three
    values are consumed. *)
Theorem getRandomScale_bounds self g :
  in_unit g ->
  (let r := getRandomScale self true g in
   within (scale self).1.1 r.1.1.1 /\
   r.1.1.2 = r.1.1.1 /\ r.1.2 = r.1.1.1 /\
   r.2 = advanced 1 g) /\
  (let r := getRandomScale self false g in
   within (scale self).1.1 r.1.1.1 /\
   within (scale self).1.2 r.1.1.2 /\
   within (scale self).2 r.1.2 /\
   r.2 = advanced 3 g).
Proof.
  intros Hg. unfold getRandomScale.
  destruct (scale self) as [[x y] z]. simpl.
  pose proof (in_unit_advanced 1 g Hg) as Hg1.
  pose proof (in_unit_advanced 2 g Hg) as Hg2.
  destruct (rounded_draw x g Hg) as [Hx _].
  destruct (rounded_draw y _ Hg1) as [Hy _].
  destruct (rounded_draw z _ Hg2) as [Hz _].
  split.
  - split; [exact Hx|]. split; [reflexivity|]. split; reflexivity.
  - split; [exact Hx|]. split; [exact Hy|]. split; [exact Hz|]. reflexivity.
Qed.

Lemma getRandomScale_bounds_witness :
  (let r := getRandomScale skewed true halves in
   within (1 # 2, 2)%Q r.1.1.1 /\
   r.1.1.2 = r.1.1.1 /\ r.1.2 = r.1.1.1 /\
   r.2 = advanced 1 halves) /\
  (let r := getRandomScale skewed false halves in
   within (1 # 2, 2)%Q r.1.1.1 /\
   within (1, 3)%Q r.1.1.2 /\
   within (4, 1)%Q r.1.2 /\
   r.2 = advanced 3 halves).
Proof.
  apply (getRandomScale_bounds skewed halves).
  intros n. split; [unfold Qle; simpl; lia | reflexivity].
Defined.

(** X22: [getRandomJitter] answers only for the two jitter attributes: a
    value between the ends of that range rounded to three places, with one
    value consumed; for [rotate] and [scale], which hold three ranges, the
    unpacking raises [ValueError], and any other name raises [KeyError]. *)
Theorem getRandomJitter_spec self space g :
  in_unit g ->
  (space = "uJitter" ->
   exists r, getRandomJitter self space g = Ok (r, advanced 1 g) /\
             within (uJitter self) r) /\
  (space = "vJitter" ->
   exists r, getRandomJitter self space g = Ok (r, advanced 1 g) /\
             within (vJitter self) r) /\
  (space = "rotate" \/ space = "scale" ->
   getRandomJitter self space g = Raise "ValueError") /\
  (space ∉ ["uJitter"; "vJitter"; "rotate"; "scale"] ->
   getRandomJitter self space g = Raise "KeyError").
Proof.
  intros Hg. unfold getRandomJitter. split; [|split; [|split]].
  - intros ->. rewrite decide_True by done.
    destruct (rounded_draw (uJitter self) g Hg) as [Hr Hadv].
    destruct (uniform (uJitter self).1 (uJitter self).2 g) as [r g1].
    simpl in Hr, Hadv. subst g1. by eexists.
  - intros ->. rewrite decide_False by done. rewrite decide_True by done.
    destruct (rounded_draw (vJitter self) g Hg) as [Hr Hadv].
    destruct (uniform (vJitter self).1 (vJitter self).2 g) as [r g1].
    simpl in Hr, Hadv. subst g1. by eexists.
  - intros Hs. rewrite decide_False by (by destruct Hs as [-> | ->]).
    rewrite decide_False by (by destruct Hs as [-> | ->]).
    by rewrite decide_True.
  - intros Hs. rewrite !not_elem_of_cons in Hs.
    destruct Hs as (Hu & Hv & Hr & Hsc & _).
    rewrite decide_False by done. rewrite decide_False by done.
    rewrite decide_False by (by intros [? | ?]). done.
Qed.

Lemma getRandomJitter_spec_witness :
  (exists r, getRandomJitter skewed "vJitter" halves = Ok (r, advanced 1 halves) /\
             within (vJitter skewed) r) /\
  getRandomJitter skewed "scale" halves = Raise "ValueError" /\
  getRandomJitter skewed "jitter" halves = Raise "KeyError".
Proof.
  assert (in_unit halves) as Hg by (intros n; split; [unfold Qle; simpl; lia | reflexivity]).
  split; [|split].
  - by apply (getRandomJitter_spec skewed "vJitter" halves Hg).
  - apply (getRandomJitter_spec skewed "scale" halves Hg). by right.
  - apply (getRandomJitter_spec skewed "jitter" halves Hg). by_decide.
Defined.

End TransformMore.

(** ** The tool options, continued *)

Section GroupMore.
Import PyNum ToolOption GroupID.
Variable S : Type.
Variable cmds_group : string -> S -> string * S.

(** X19: [getGroupID] answers and stores the name of a new group when the
    stored id is falsy, and otherwise answers the stored id without
    touching the scene; no other attribute changes, a second call answers
    the same id and creates nothing, and [loadVars] keeps the id. *)
Theorem getGroupID_memo self s g :
  self !! "groupID" = Some g ->
  exists g' self' s',
    getGroupID S cmds_group self s = Ok (g', self', s') /\
    self' !! "groupID" = Some g' /\
    (forall a, a <> "groupID" -> self' !! a = self !! a) /\
    (py_truth g = true -> g' = g /\ self' = self /\ s' = s) /\
    (py_truth g = false ->
     (g', s') = (VStr (cmds_group "spPaint3dOutput" s).1,
                 (cmds_group "spPaint3dOutput" s).2)) /\
    (py_truth g' = true ->
     getGroupID S cmds_group self' s' = Ok (g', self', s')) /\
    (forall store, loadVars self' store !! "groupID" = Some g').
Proof.
  intros Hg.
  assert (forall self0 g0 store, self0 !! "groupID" = Some g0 ->
            loadVars self0 store !! "groupID" = Some g0) as Hload.
  { intros self0 g0 store H0. rewrite <- H0.
    apply (loadVars_notin self0 store "groupID"). by_decide. }
  assert (forall self0 s0 g0, self0 !! "groupID" = Some g0 ->
            py_truth g0 = true ->
            getGroupID S cmds_group self0 s0 = Ok (g0, self0, s0)) as Hkeep.
  { intros self0 s0 g0 H0 Ht0. unfold getGroupID, getattr.
    rewrite H0. cbn [obind]. rewrite Ht0. reflexivity. }
  destruct (py_truth g) eqn:Ht.
  - exists g, self, s. split; [by apply Hkeep|]. split; [exact Hg|].
    split; [done|]. split; [done|]. split; [done|].
    split; [intros _; by apply Hkeep | intros store; by apply Hload].
  - destruct (cmds_group "spPaint3dOutput" s) as [name s1] eqn:Hc.
    assert (<["groupID" := VStr name]> self !! "groupID" = Some (VStr name))
      as Hnew by apply lookup_insert_eq.
    exists (VStr name), (<["groupID" := VStr name]> self), s1.
    split.
    { unfold getGroupID, getattr. rewrite Hg. cbn [obind]. rewrite Ht.
      cbn [negb]. rewrite Hc. reflexivity. }
    split; [exact Hnew|].
    split; [intros a Ha; by apply lookup_insert_ne|].
    split; [done|]. split; [done|].
    split; [intros Ht'; by apply Hkeep | intros store; by apply Hload].
Qed.
End GroupMore.

Lemma getGroupID_memo_witness :
  exists g' self' s',
    GroupID.getGroupID (list string) GroupID.make_group
      ToolOption.init_attrs ["spPaint3dOutput"] = Ok (g', self', s') /\
    self' !! "groupID" = Some g' /\
    (forall a, a <> "groupID" -> self' !! a = ToolOption.init_attrs !! a) /\
    (GroupID.py_truth PyNum.VNone = true ->
     g' = PyNum.VNone /\ self' = ToolOption.init_attrs /\
     s' = ["spPaint3dOutput"]) /\
    (GroupID.py_truth PyNum.VNone = false ->
     (g', s') = (PyNum.VStr "spPaint3dOutput1",
                 ["spPaint3dOutput"; "spPaint3dOutput1"])) /\
    (GroupID.py_truth g' = true ->
     GroupID.getGroupID (list string) GroupID.make_group self' s'
     = Ok (g', self', s')) /\
    (forall store, ToolOption.loadVars self' store !! "groupID" = Some g').
Proof.
  apply (getGroupID_memo (list string) GroupID.make_group
           ToolOption.init_attrs ["spPaint3dOutput"] PyNum.VNone).
  reflexivity.
Defined.

Section ToolOptionMore.
Import PyNum ToolOption GroupID Window.
Variable str_to_int : string -> outcome Z.
Implicit Types (self : gmap string pyval) (store : gmap string optval)
  (r : row) (w : spPaint3dWin).

(** What [commitVars] leaves in the store: under the name of each row, the
    value whose load is the projection of the attribute. *)
Lemma commit_store_lookup self store :
  numbers self ->
  exists store',
    commitVars str_to_int self store = Ok store' /\
    (forall r v, r ∈ sp3dOptionVars -> self !! row_var r = Some v ->
       exists o p, store' !! row_name r = Some o /\
                   commit_value str_to_int self r = Ok (Some o) /\
                   projection str_to_int (row_type r) v = Ok p /\
                   load_value store' r = Some p).
Proof.
  intros Hnum.
  destruct (commitVars_returns str_to_int self store Hnum) as [store' Hc].
  exists store'. split; [exact Hc|].
  intros r v Hr Hv.
  assert (write_rows (commit_value str_to_int self) sp3dOptionVars store
          = Ok store') as Hw.
  { rewrite <- commitVars_loop_write. exact Hc. }
  destruct (write_rows_in _ _ _ _ r table_names Hr Hw) as (w0 & Hw0 & Hl).
  pose proof (proj1 (Forall_forall _ _) table_types r Hr) as Hty.
  destruct (Hnum r Hr) as (v' & Hv' & Hnumv).
  rewrite Hv in Hv'. inversion Hv'; subst v'. clear Hv'.
  destruct Hty as [Hiv | Hfv].
  - assert (exists n, py_int str_to_int v = Ok n) as [n Hn]
      by (destruct v; try discriminate Hnumv; eexists; reflexivity).
    pose proof (commit_value_iv str_to_int self r v n Hiv Hv Hn) as Hcv.
    rewrite Hcv in Hw0. inversion Hw0; subst w0.
    exists (OInt n), (VBool (negb (n =? 0))).
    split; [exact Hl|]. split; [exact Hcv|]. split.
    + unfold projection. rewrite Hiv. simpl. rewrite Hn. reflexivity.
    + rewrite (load_value_stored store' r (OInt n) (or_introl Hiv) Hl).
      rewrite Hiv. reflexivity.
  - assert (exists q, to_float v = Ok q) as [q Hq]
      by (destruct v; try discriminate Hnumv; eexists; reflexivity).
    pose proof (commit_value_fv str_to_int self r v q Hfv Hv Hq) as Hcv.
    rewrite Hcv in Hw0. inversion Hw0; subst w0.
    exists (OFloat q), (VFloat (round_float q 2)).
    split; [exact Hl|]. split; [exact Hcv|]. split.
    + unfold projection. rewrite Hfv. simpl. rewrite Hq. reflexivity.
    + rewrite (load_value_stored store' r (OFloat q) (or_intror Hfv) Hl).
      rewrite Hfv. reflexivity.
Qed.

(** A store committed by a session of the running version is accepted by
    the next [__init__], which loads the projection of every attribute of
    the table and starts without a group id. *)
Lemma commit_init_lookup self store :
  numbers self ->
  self !! "version" = Some spPaint3dVersion ->
  exists store',
    commitVars str_to_int self store = Ok store' /\
    checkVars store' = true /\
    init str_to_int store' = Ok (loadVars init_attrs store', store') /\
    (forall r v, r ∈ sp3dOptionVars -> self !! row_var r = Some v ->
       exists p, projection str_to_int (row_type r) v = Ok p /\
                 loadVars init_attrs store' !! row_var r = Some p) /\
    (forall a, a ∉ map row_var sp3dOptionVars ->
       loadVars init_attrs store' !! a = init_attrs !! a).
Proof.
  intros Hnum Hver.
  destruct (commit_store_lookup self store Hnum) as (store' & Hc & Hrows).
  exists store'. split; [exact Hc|].
  assert (checkVars store' = true) as Hcheck.
  { destruct (checkVars store') eqn:E; [reflexivity|]. exfalso.
    apply checkVars_loop_false in E as (r & Hr & Hbad).
    destruct (Hnum r Hr) as (v & Hv & _).
    destruct (Hrows r v Hr Hv) as (o & p & Ho & Hcv & _ & _).
    destruct Hbad as [Hnone | [Hname Hne]]; [congruence|].
    pose proof (table_version r Hr Hname) as ->.
    pose proof (commit_value_fv str_to_int self
                  ("sp3dVersion", ("fv", spPaint3dVersion, "version"))
                  spPaint3dVersion 2022 eq_refl Hver eq_refl) as Hcv'.
    rewrite Hcv' in Hcv. inversion Hcv; subst o.
    unfold optionVar_q in Hne. rewrite Ho in Hne. discriminate Hne. }
  split; [exact Hcheck|]. split.
  { unfold init. rewrite Hcheck. reflexivity. }
  split.
  - intros r v Hr Hv. destruct (Hrows r v Hr Hv) as (o & p & _ & _ & Hp & Hl).
    exists p. split; [exact Hp|]. exact (loadVars_in init_attrs store' r p Hr Hl).
  - intros a Ha. exact (loadVars_notin init_attrs store' a Ha).
Qed.

(** X15: after [commitVars] on attributes that hold numbers and the running
    version, the next [__init__] accepts the store and comes up with the
    projection of every attribute of the table: [bool(int(v))] for an 'iv'
    row, the float [v] rounded to two places for an 'fv' row.  The group id
    is not stored: the new session starts with [None]. *)
Theorem commit_then_init self store :
  numbers self ->
  self !! "version" = Some spPaint3dVersion ->
  exists store' attrs,
    commitVars str_to_int self store = Ok store' /\
    checkVars store' = true /\
    init str_to_int store' = Ok (attrs, store') /\
    (forall r v, r ∈ sp3dOptionVars -> self !! row_var r = Some v ->
       exists p, projection str_to_int (row_type r) v = Ok p /\
                 attrs !! row_var r = Some p) /\
    attrs !! "groupID" = Some VNone.
Proof.
  intros Hnum Hver.
  destruct (commit_init_lookup self store Hnum Hver)
    as (store' & Hc & Hcheck & Hinit & Hin & Hout).
  exists store', (loadVars init_attrs store').
  split; [exact Hc|]. split; [exact Hcheck|]. split; [exact Hinit|].
  split; [exact Hin|].
  rewrite (Hout "groupID") by by_decide. reflexivity.
Qed.

(** Setting an attribute of the table, other than the version, to a
    number keeps the two conditions of a session. *)
Lemma numbers_insert self r v :
  numbers self ->
  is_number v = true ->
  numbers (<[row_var r := v]> self).
Proof.
  intros Hnum Hv r' Hr'.
  destruct (decide (row_var r' = row_var r)) as [E | NE].
  - exists v. rewrite E. by rewrite lookup_insert_eq.
  - rewrite lookup_insert_ne by done. by apply Hnum.
Qed.

Lemma uiValues_updateCtx w : uiValues (updateCtx w) = uiValues w.
Proof. unfold updateCtx. by destruct (ctx w). Qed.

(** The common body of the callbacks of the controls: an attribute of the
    table is set, the attributes are committed, the context is updated. *)
Lemma set_commit_restart w store r v :
  numbers (uiValues w) ->
  uiValues w !! "version" = Some spPaint3dVersion ->
  r ∈ sp3dOptionVars ->
  row_var r <> "version" ->
  is_number v = true ->
  exists store',
    commitVars str_to_int (<[row_var r := v]> (uiValues w)) store = Ok store' /\
    checkVars store' = true /\
    init str_to_int store' = Ok (loadVars init_attrs store', store') /\
    (exists p, projection str_to_int (row_type r) v = Ok p /\
               loadVars init_attrs store' !! row_var r = Some p) /\
    (forall a, a ∈ map row_var sp3dOptionVars ->
       is_Some (loadVars init_attrs store' !! a)).
Proof.
  intros Hnum Hver Hr Hnv Hv.
  pose proof (numbers_insert (uiValues w) r v Hnum Hv) as Hnum1.
  assert (<[row_var r := v]> (uiValues w) !! "version" = Some spPaint3dVersion)
    as Hver1 by (by rewrite lookup_insert_ne).
  destruct (commit_init_lookup _ store Hnum1 Hver1)
    as (store' & Hc & Hcheck & Hinit & Hin & _).
  exists store'. split; [exact Hc|]. split; [exact Hcheck|].
  split; [exact Hinit|]. split.
  - apply (Hin r v Hr). by rewrite lookup_insert_eq.
  - intros a Ha. apply list_elem_of_fmap in Ha as (r' & -> & Hr').
    destruct (Hnum1 r' Hr') as (v' & Hv' & _).
    destruct (Hin r' v' Hr' Hv') as (p & _ & Hp). by exists p.
Qed.

(** The label the ramp menu shows for a projected ramp code. *)
Lemma updateUIControls_ramp attrs code :
  (forall a, a ∈ map row_var sp3dOptionVars -> is_Some (attrs !! a)) ->
  attrs !! "rampFX" = Some (VFloat (round_float (inject_Z code) 2)) ->
  exists controls,
    updateUIControls attrs = Ok controls /\
    uiPaintMetricsRampMenu controls
    = (if decide (code = 1) then "rotate"
       else if decide (code = 2) then "scale"
       else if decide (code = 3) then "both" else " ").
Proof.
  intros Hall Hramp.
  destruct (Hall "transformRotate" ltac:(by_decide)) as [v1 E1].
  destruct (Hall "transformScale" ltac:(by_decide)) as [v2 E2].
  destruct (Hall "transformScaleUniform" ltac:(by_decide)) as [v3 E3].
  destruct (Hall "jitter" ltac:(by_decide)) as [v4 E4].
  destruct (Hall "instance" ltac:(by_decide)) as [v5 E5].
  destruct (Hall "random" ltac:(by_decide)) as [v6 E6].
  destruct (Hall "align" ltac:(by_decide)) as [v7 E7].
  destruct (Hall "paintFlux" ltac:(by_decide)) as [v8 E8].
  destruct (Hall "paintTimer" ltac:(by_decide)) as [v9 E9].
  destruct (Hall "paintDistance" ltac:(by_decide)) as [v10 E10].
  destruct (Hall "upOffset" ltac:(by_decide)) as [v11 E11].
  unfold updateUIControls, getattr.
  rewrite E1, E2, E3, E4, E5, E6, E7, E8, E9, E10, E11, Hramp.
  eexists. split; [reflexivity|]. cbn [uiPaintMetricsRampMenu].
  assert (forall k, py_eq (VFloat (round_float (inject_Z code) 2)) (VInt k)
                    = bool_decide (code = k)) as Heq.
  { intros k. cbn [py_eq to_float].
    destruct (decide (code = k)) as [-> | NE].
    - rewrite bool_decide_eq_true_2 by done.
      apply Qeq_eq_bool, round_float_Z.
    - rewrite bool_decide_eq_false_2 by done.
      destruct (Qeq_bool _ _) eqn:E; [|done]. exfalso. apply NE.
      apply Qeq_bool_eq in E. rewrite round_float_Z in E.
      apply inject_Z_injective. exact E. }
  rewrite !Heq. repeat case_decide; repeat case_bool_decide; done.
Qed.

(** The code the callback stores for a label names that label again. *)
Lemma ramp_label (label : string) :
  let code := if decide (label = "rotate") then 1
              else if decide (label = "scale") then 2
              else if decide (label = "both") then 3 else 0 in
  (if decide (code = 1) then "rotate"
   else if decide (code = 2) then "scale"
   else if decide (code = 3) then "both" else " ")
  = (if decide (label ∈ ["rotate"; "scale"; "both"]) then label else " ").
Proof.
  intros code. unfold code. clear code.
  destruct (decide (label = "rotate")) as [-> | H1]; [reflexivity|].
  destruct (decide (label = "scale")) as [-> | H2]; [reflexivity|].
  destruct (decide (label = "both")) as [-> | H3]; [reflexivity|].
  rewrite (decide_False (P := label ∈ ["rotate"; "scale"; "both"])).
  - reflexivity.
  - rewrite !elem_of_cons, elem_of_nil. tauto.
Qed.

(** X16: the choice of the ramp menu survives a restart: after
    [uiRampMenuCallback] with a label, the next [__init__] accepts the
    store, and [updateUIControls] on its attributes shows the label again
    when it is one of the three modes, and a blank otherwise. *)
Theorem uiRampMenuCallback_restart w store label :
  numbers (uiValues w) ->
  uiValues w !! "version" = Some spPaint3dVersion ->
  exists w' store' attrs controls,
    uiRampMenuCallback str_to_int w store label = Ok (w', store') /\
    init str_to_int store' = Ok (attrs, store') /\
    updateUIControls attrs = Ok controls /\
    uiPaintMetricsRampMenu controls
    = (if decide (label ∈ ["rotate"; "scale"; "both"]) then label else " ").
Proof.
  intros Hnum Hver. unfold uiRampMenuCallback.
  set (code := if decide (label = "rotate") then 1
               else if decide (label = "scale") then 2
               else if decide (label = "both") then 3 else 0).
  assert ((if decide (label = "rotate") then VInt 1
           else if decide (label = "scale") then VInt 2
           else if decide (label = "both") then VInt 3 else VInt 0)
          = VInt code) as -> by (unfold code; by repeat case_decide).
  destruct (set_commit_restart w store ("sp3dRampFX", ("fv", VInt 0, "rampFX"))
              (VInt code) Hnum Hver ltac:(by_decide) ltac:(done) eq_refl)
    as (store' & Hc & _ & Hinit & (p & Hp & Hl) & Hall).
  change (row_var ("sp3dRampFX", ("fv", VInt 0, "rampFX"))) with "rampFX"
    in Hc, Hl.
  cbn [uiValues with_uiValues]. rewrite Hc. cbn [obind].
  unfold projection in Hp. cbn in Hp. inversion Hp; subst p.
  destruct (updateUIControls_ramp _ code Hall Hl) as (controls & Hu & Hmenu).
  eexists _, store', _, controls.
  split; [reflexivity|]. split; [exact Hinit|]. split; [exact Hu|].
  rewrite Hmenu. exact (ramp_label label).
Qed.

(** X17: a value entered in a float control survives a restart rounded to
    two places: after [uiFluxCallback] on an 'fv' attribute of the table
    with a value [float()] takes, the window holds the float, and the next
    [__init__] accepts the store and loads the float rounded to two
    places. *)
Theorem uiFluxCallback_restart (str_to_float : string -> outcome Q)
    w store r value q :
  numbers (uiValues w) ->
  uiValues w !! "version" = Some spPaint3dVersion ->
  r ∈ sp3dOptionVars ->
  row_type r = "fv" ->
  row_var r <> "version" ->
  py_float str_to_float value = Ok q ->
  exists w' store' attrs,
    uiFluxCallback str_to_int str_to_float w store (row_var r) value
    = Ok (w', store') /\
    uiValues w' !! row_var r = Some (VFloat q) /\
    init str_to_int store' = Ok (attrs, store') /\
    attrs !! row_var r = Some (VFloat (round_float q 2)).
Proof.
  intros Hnum Hver Hr Hty Hnv Hq. unfold uiFluxCallback. rewrite Hq. cbn [obind].
  destruct (set_commit_restart w store r (VFloat q) Hnum Hver Hr Hnv eq_refl)
    as (store' & Hc & _ & Hinit & (p & Hp & Hl) & _).
  cbn [uiValues with_uiValues]. rewrite Hc. cbn [obind].
  unfold projection in Hp. rewrite Hty in Hp. cbn in Hp. inversion Hp; subst p.
  eexists _, store', _. split; [reflexivity|]. split.
  { rewrite uiValues_updateCtx. cbn [uiValues with_uiValues].
    by rewrite lookup_insert_eq. }
  split; [exact Hinit | exact Hl].
Qed.

(** X18: the state of a check box survives a restart: after
    [uiCheckBoxCallback] on an 'iv' attribute of the table, with a control
    that answers a bool, or any answer before Maya 2011 where only the
    string 'true' counts as set, the next [__init__] accepts the store and
    loads that state. *)
Theorem uiCheckBoxCallback_restart w store r uicontrol :
  numbers (uiValues w) ->
  uiValues w !! "version" = Some spPaint3dVersion ->
  r ∈ sp3dOptionVars ->
  row_type r = "iv" ->
  mayaVersion w < 2011 \/ (exists b, uicontrol = VBool b) ->
  exists b w' store' attrs,
    getBoolFromMayaControl uicontrol (mayaVersion w) = VBool b /\
    (mayaVersion w < 2011 -> b = py_eq uicontrol (VStr "true")) /\
    uiCheckBoxCallback str_to_int w store (row_var r) uicontrol
    = Ok (w', store') /\
    init str_to_int store' = Ok (attrs, store') /\
    attrs !! row_var r = Some (VBool b).
Proof.
  intros Hnum Hver Hr Hty Hctl.
  assert (exists b, getBoolFromMayaControl uicontrol (mayaVersion w) = VBool b /\
                    (mayaVersion w < 2011 -> b = py_eq uicontrol (VStr "true")))
    as (b & Hb & Hold).
  { unfold getBoolFromMayaControl.
    destruct (decide (mayaVersion w - 2011 >= 0)) as [Hge | Hlt].
    - destruct Hctl as [Hlt | [b ->]]; [lia|]. exists b. split; [done | lia].
    - exists (py_eq uicontrol (VStr "true")).
      split; [by destruct (py_eq _ _) | done]. }
  assert (row_var r <> "version") as Hnv.
  { assert (Forall (fun r => row_type r = "iv" -> row_var r <> "version")
              sp3dOptionVars) as Htable by by_decide.
    exact (proj1 (Forall_forall _ _) Htable r Hr Hty). }
  unfold uiCheckBoxCallback. rewrite Hb.
  destruct (set_commit_restart w store r (VBool b) Hnum Hver Hr Hnv eq_refl)
    as (store' & Hc & _ & Hinit & (p & Hp & Hl) & _).
  cbn [uiValues with_uiValues]. rewrite Hc. cbn [obind].
  unfold projection in Hp. rewrite Hty in Hp. cbn in Hp.
  inversion Hp; subst p.
  exists b. eexists _, store', _. split; [reflexivity|]. split; [exact Hold|].
  split; [reflexivity|]. split; [exact Hinit|].
  rewrite Hl. by destruct b.
Qed.

End ToolOptionMore.

Section ToolOptionMoreSamples.
Import PyNum ToolOption GroupID Window Samples.

Lemma commit_then_init_witness :
  exists store' attrs,
    commitVars no_str_to_int edited_attrs ∅ = Ok store' /\
    checkVars store' = true /\
    init no_str_to_int store' = Ok (attrs, store') /\
    (forall r v, r ∈ sp3dOptionVars -> edited_attrs !! row_var r = Some v ->
       exists p, projection no_str_to_int (row_type r) v = Ok p /\
                 attrs !! row_var r = Some p) /\
    attrs !! "groupID" = Some VNone.
Proof.
  apply (commit_then_init no_str_to_int edited_attrs ∅).
  - intros r Hin. unfold sp3dOptionVars in Hin.
    repeat (apply elem_of_cons in Hin as [-> | Hin];
            [eexists; split; reflexivity|]).
    by apply elem_of_nil in Hin.
  - reflexivity.
Defined.

Lemma uiRampMenuCallback_restart_witness :
  exists w' store' attrs controls,
    uiRampMenuCallback no_str_to_int window0 ∅ "scale" = Ok (w', store') /\
    init no_str_to_int store' = Ok (attrs, store') /\
    updateUIControls attrs = Ok controls /\
    uiPaintMetricsRampMenu controls
    = (if decide ("scale" ∈ ["rotate"; "scale"; "both"]) then "scale" else " ").
Proof.
  apply (uiRampMenuCallback_restart no_str_to_int window0 ∅ "scale").
  - intros r Hin. unfold sp3dOptionVars in Hin.
    repeat (apply elem_of_cons in Hin as [-> | Hin];
            [eexists; split; reflexivity|]).
    by apply elem_of_nil in Hin.
  - reflexivity.
Defined.

Lemma uiFluxCallback_restart_witness :
  exists w' store' attrs,
    uiFluxCallback no_str_to_int no_str_to_float window0 ∅
      "paintDistance" (VFloat (123456 # 10000)) = Ok (w', store') /\
    uiValues w' !! "paintDistance" = Some (VFloat (123456 # 10000)) /\
    init no_str_to_int store' = Ok (attrs, store') /\
    attrs !! "paintDistance"
    = Some (VFloat (round_float (123456 # 10000) 2)).
Proof.
  apply (uiFluxCallback_restart no_str_to_int no_str_to_float window0 ∅
           ("sp3dPaintDistance", ("fv", VInt 10, "paintDistance"))
           (VFloat (123456 # 10000)) (123456 # 10000)).
  - intros r Hin. unfold sp3dOptionVars in Hin.
    repeat (apply elem_of_cons in Hin as [-> | Hin];
            [eexists; split; reflexivity|]).
    by apply elem_of_nil in Hin.
  - reflexivity.
  - by_decide.
  - reflexivity.
  - discriminate.
  - reflexivity.
Defined.

Lemma uiCheckBoxCallback_restart_witness :
  exists b w' store' attrs,
    getBoolFromMayaControl (VBool true) 2022 = VBool b /\
    (2022 < 2011 -> b = py_eq (VBool true) (VStr "true")) /\
    uiCheckBoxCallback no_str_to_int window0 ∅ "jitter" (VBool true)
    = Ok (w', store') /\
    init no_str_to_int store' = Ok (attrs, store') /\
    attrs !! "jitter" = Some (VBool b).
Proof.
  apply (uiCheckBoxCallback_restart no_str_to_int window0 ∅
           ("sp3dJitter", ("iv", VInt 0, "jitter")) (VBool true)).
  - intros r Hin. unfold sp3dOptionVars in Hin.
    repeat (apply elem_of_cons in Hin as [-> | Hin];
            [eexists; split; reflexivity|]).
    by apply elem_of_nil in Hin.
  - reflexivity.
  - by_decide.
  - reflexivity.
  - right. by exists true.
Defined.

End ToolOptionMoreSamples.

(** ** The callbacks of the window *)

Section WindowMore.
Import ObjectList Samples Window.
Implicit Types (w : spPaint3dWin) (sc : scene) (tl : string).

Lemma other_valid tl :
  tl = "uiSourceList" \/ tl = "uiTargetList" ->
  (other tl = "uiSourceList" \/ other tl = "uiTargetList") /\ other tl <> tl.
Proof. intros [-> | ->]; split; (by left) || (by right) || done. Qed.

Lemma synced_listed w tl :
  tl = "uiSourceList" \/ tl = "uiTargetList" ->
  synced w <-> listed w tl /\ listed w (other tl).
Proof.
  intros [-> | ->]; unfold synced, listed;
    change (items_of w "uiSourceList") with (Ok (uiSourceList w));
    change (items_of w "uiTargetList") with (Ok (uiTargetList w));
    change (items_of w (other "uiSourceList")) with (Ok (uiTargetList w));
    change (items_of w (other "uiTargetList")) with (Ok (uiSourceList w));
    change (get_objlist w (objlist_of "uiSourceList")) with (sourceList w);
    change (get_objlist w (objlist_of "uiTargetList")) with (targetList w);
    change (get_objlist w (objlist_of (other "uiSourceList")))
      with (targetList w);
    change (get_objlist w (objlist_of (other "uiTargetList")))
      with (sourceList w);
    split.
  - intros (A & B & C & D). by rewrite A, B.
  - intros ([A C] & [B D]). by inversion A; inversion B.
  - intros (A & B & C & D). by rewrite A, B.
  - intros ([A C] & [B D]). by inversion A; inversion B.
Qed.

Lemma get_set_objlist w tl l :
  tl = "uiSourceList" \/ tl = "uiTargetList" ->
  get_objlist (set_objlist w (objlist_of tl) l) (objlist_of tl) = l.
Proof. by intros [-> | ->]. Qed.

Lemma get_set_objlist_other w tl l :
  tl = "uiSourceList" \/ tl = "uiTargetList" ->
  get_objlist (set_objlist w (objlist_of tl) l) (objlist_of (other tl))
  = get_objlist w (objlist_of (other tl)).
Proof. by intros [-> | ->]. Qed.

Lemma items_set_objlist w ol l tl :
  items_of (set_objlist w ol l) tl = items_of w tl.
Proof. unfold set_objlist. by case_decide. Qed.

Lemma items_set_items w tl items :
  tl = "uiSourceList" \/ tl = "uiTargetList" ->
  items_of (set_items w tl items) tl = Ok items.
Proof. by intros [-> | ->]. Qed.

Lemma items_set_items_other w tl items :
  tl = "uiSourceList" \/ tl = "uiTargetList" ->
  items_of (set_items w tl items) (other tl) = items_of w (other tl).
Proof. by intros [-> | ->]. Qed.

Lemma get_set_items w tl items ol :
  get_objlist (set_items w tl items) ol = get_objlist w ol.
Proof. unfold set_items. by case_decide. Qed.

Lemma get_updateCtx w ol : get_objlist (updateCtx w) ol = get_objlist w ol.
Proof. unfold updateCtx. by destruct (ctx w). Qed.

Lemma items_updateCtx w tl : items_of (updateCtx w) tl = items_of w tl.
Proof. unfold updateCtx. by destruct (ctx w). Qed.

Lemma listed_updateCtx w tl : listed w tl -> listed (updateCtx w) tl.
Proof. unfold listed. by rewrite items_updateCtx, get_updateCtx. Qed.

(** On a selected node [addObj] returns: a refusal, or a new last entry
    under a key that exists in the scene. *)
Lemma addObj_selected sc self o act p al :
  selectable sc o ->
  exists self' r,
    addObj sc self o act p al = Ok (self', r) /\
    ((self' = self /\ exists msg, r = (None, Reason msg)) \/
     (exists k e,
        r = (Some k, Added) /\ (k ∉ keys self) /\
        objExists sc (Some k) = true /\
        self' = with_obj self (obj self ++ [(k, e)]))).
Proof.
  intros (Hex & [t Ht] & [ch Hch] & [d Hd] & Hchild).
  assert (returns (addObj sc self o act p al)) as [[self' r] Hadd].
  { unfold addObj. destruct (alreadyExists self o); [by eexists|].
    rewrite Ht, Hch. cbn [obind].
    destruct (decide (t ∈ auth self)); [rewrite Hd; by eexists|].
    destruct (decide (t = "transform")); [|by eexists].
    destruct ch as [[|c [|? ?]]|]; try by eexists.
    destruct (Hchild c Hch) as (_ & [ct Hct] & [dc Hdc]).
    rewrite Hct. cbn [obind].
    destruct (decide (ct ∈ auth self)); [|by eexists].
    destruct (alreadyExists self c); [by eexists|].
    rewrite Hdc. by eexists. }
  exists self', r. split; [exact Hadd|].
  destruct (addObj_cases _ _ _ _ _ _ _ _ Hadd)
    as [Hrefused | (k & d' & Hr & _ & Hk & Hres & _ & _ & Hself)];
    [by left|].
  right. exists k, (mk_entry d' act p al).
  split; [exact Hr|]. split; [exact Hk|]. split; [|exact Hself].
  destruct Hres as [? ? ? | c ? ? ? Hc ? ?]; [exact Hex|].
  by destruct (Hchild c Hc) as (Hcex & _).
Qed.

Lemma put_put w tl h1 s1 i1 h2 s2 i2 :
  tl = "uiSourceList" \/ tl = "uiTargetList" ->
  put (put w tl h1 s1 i1) tl h2 s2 i2 = put w tl h2 s2 i2.
Proof. by intros [-> | ->]. Qed.

Lemma put_same w tl items :
  tl = "uiSourceList" \/ tl = "uiTargetList" ->
  items_of w tl = Ok items ->
  put w tl (errorHandle w) (get_objlist w (objlist_of tl)) items = w.
Proof.
  intros [-> | ->] Hitems; destruct w; cbn in Hitems; inversion Hitems;
    reflexivity.
Qed.

Lemma put_accept w tl s items :
  tl = "uiSourceList" \/ tl = "uiTargetList" ->
  set_items (set_objlist w (objlist_of tl) s) tl items
  = put w tl (errorHandle w) s items.
Proof. intros [-> | ->]; by destruct w. Qed.

Lemma put_refuse w tl s h items :
  tl = "uiSourceList" \/ tl = "uiTargetList" ->
  items_of w tl = Ok items ->
  Window.with_errorHandle (set_objlist w (objlist_of tl) s) h
  = put w tl h s items.
Proof.
  intros [-> | ->] Hitems; destruct w; cbn in Hitems; inversion Hitems;
    reflexivity.
Qed.

Lemma errorHandle_set_objlist w ol s :
  errorHandle (set_objlist w ol s) = errorHandle w.
Proof. unfold set_objlist. by case_decide. Qed.

Lemma get_put w tl h s items :
  tl = "uiSourceList" \/ tl = "uiTargetList" ->
  get_objlist (put w tl h s items) (objlist_of tl) = s.
Proof. by intros [-> | ->]. Qed.

Lemma items_put w tl h s items :
  tl = "uiSourceList" \/ tl = "uiTargetList" ->
  items_of (put w tl h s items) tl = Ok items.
Proof. by intros [-> | ->]. Qed.

Lemma errorHandle_put w tl h s items :
  tl = "uiSourceList" \/ tl = "uiTargetList" ->
  errorHandle (put w tl h s items) = h.
Proof. by intros [-> | ->]. Qed.

Lemma other_put w tl h s items :
  tl = "uiSourceList" \/ tl = "uiTargetList" ->
  items_of (put w tl h s items) (other tl) = items_of w (other tl) /\
  get_objlist (put w tl h s items) (objlist_of (other tl))
  = get_objlist w (objlist_of (other tl)) /\
  uiValues (put w tl h s items) = uiValues w /\
  transform (put w tl h s items) = transform w /\
  ctx (put w tl h s items) = ctx w.
Proof. by intros [-> | ->]. Qed.

(** The loop of the 'add' mode does to the registry what [addObj] does
    call after call, appends the accepted keys to the text list, and
    reports the refusals to the error handle. *)
Lemma add_selected_each sc tl objselected :
  tl = "uiSourceList" \/ tl = "uiTargetList" ->
  Forall (selectable sc) objselected ->
  forall w items, items_of w tl = Ok items ->
  exists self' added refused,
    addObj_each sc (get_objlist w (objlist_of tl)) objselected
    = Ok (self', added, refused) /\
    add_selected sc objselected tl w
    = Ok (put w tl (reported (errorHandle w) refused) self' (items ++ added)) /\
    keys self' = keys (get_objlist w (objlist_of tl)) ++ added /\
    (PyDict.wf (obj (get_objlist w (objlist_of tl))) -> PyDict.wf (obj self')).
Proof.
  intros Htl Hsel. induction Hsel as [|o rest Ho _ IH]; intros w items Hitems.
  { exists (get_objlist w (objlist_of tl)), [], [].
    split; [done|]. rewrite !app_nil_r. split; [|done].
    cbn [add_selected reported foldl]. by rewrite put_same. }
  cbn [add_selected addObj_each].
  set (self := get_objlist w (objlist_of tl)).
  destruct (addObj_selected sc self o true (1 # 2) "Up" Ho)
    as (s1 & r & Hadd & [[-> [msg ->]] | (k & e & -> & Hk & Hex & ->)]);
    rewrite Hadd; cbn [obind fst snd call_raiseError].
  - rewrite errorHandle_set_objlist.
    rewrite (put_refuse w tl self _ items Htl Hitems).
    set (w2 := put w tl (raiseError (errorHandle w) msg) self items).
    destruct (IH w2 items (items_put _ _ _ _ _ Htl))
      as (self' & added & refused & Heach & Hrun & Hkeys & Hwf).
    unfold w2 in Heach, Hkeys, Hwf. rewrite get_put in Heach, Hkeys, Hwf by done.
    exists self', added, (msg :: refused). rewrite Heach. cbn [obind fst snd].
    split; [done|]. split; [|done].
    rewrite Hrun. unfold w2. rewrite put_put, errorHandle_put by done. done.
  - rewrite Hex, items_set_objlist, Hitems. cbn [obind].
    rewrite (put_accept w tl _ _ Htl).
    set (s1 := with_obj self (obj self ++ [(k, e)])).
    set (w2 := put w tl (errorHandle w) s1 (items ++ [k])).
    destruct (IH w2 (items ++ [k]) (items_put _ _ _ _ _ Htl))
      as (self' & added & refused & Heach & Hrun & Hkeys & Hwf).
    unfold w2 in Heach, Hkeys, Hwf. rewrite get_put in Heach, Hkeys, Hwf by done.
    assert (keys s1 = keys self ++ [k]) as Hk1.
    { unfold s1. change (keys (with_obj self ?d)) with (PyDict.keys d).
      by rewrite keys_snoc. }
    exists self', (k :: added), refused. rewrite Heach. cbn [obind fst snd].
    split; [done|]. split; [|split].
    + rewrite Hrun. unfold w2. rewrite put_put, errorHandle_put by done.
      by rewrite <- app_assoc.
    + rewrite Hkeys, Hk1. by rewrite <- app_assoc.
    + intros Hwf0. apply Hwf. unfold PyDict.wf.
      change (PyDict.keys (obj s1)) with (keys s1). rewrite Hk1.
      apply NoDup_app. split; [exact Hwf0|]. split; [|apply NoDup_singleton].
      intros x Hx Hin. apply list_elem_of_singleton in Hin. by subst.
Qed.

(** X10: the 'add' mode of [uiListCallback] on selected nodes returns, and
    the window afterwards is the one before with three things replaced:
    the registry of the text list is what [addObj] makes of it call after
    call over the selection, the items of the text list are the old ones
    followed by the keys these calls accepted, in order, and the error
    handle holds the reasons of the refusals, reported in order (so the
    last one shows, and without a refusal the message stays).  A running
    context is handed the new values.  Each text list still shows the keys
    of its registry; the other list, its registry, the options and the
    transform are not touched. *)
Theorem uiListCallback_add sc w tl objselected remlist :
  synced w ->
  tl = "uiSourceList" \/ tl = "uiTargetList" ->
  Forall (selectable sc) objselected ->
  exists self' added refused w' items,
    addObj_each sc (get_objlist w (objlist_of tl)) objselected
    = Ok (self', added, refused) /\
    items_of w tl = Ok items /\
    uiListCallback sc w "add" tl objselected remlist = Ok w' /\
    w' = updateCtx
           (put w tl (reported (errorHandle w) refused) self' (items ++ added)) /\
    synced w' /\
    get_objlist w' (objlist_of tl) = self' /\
    keys self' = items ++ added /\
    items_of w' tl = Ok (items ++ added) /\
    errorHandle w' = reported (errorHandle w) refused /\
    items_of w' (other tl) = items_of w (other tl) /\
    get_objlist w' (objlist_of (other tl))
    = get_objlist w (objlist_of (other tl)) /\
    uiValues w' = uiValues w /\
    transform w' = transform w.
Proof.
  intros Hs Htl Hsel. apply (synced_listed w tl Htl) in Hs as [Hl Hlo].
  destruct Hl as [Hitems Hwf0].
  destruct (add_selected_each sc tl objselected Htl Hsel w _ Hitems)
    as (self' & added & refused & Heach & Hrun & Hkeys & Hwf).
  set (w1 := put w tl (reported (errorHandle w) refused) self'
               (keys (get_objlist w (objlist_of tl)) ++ added)) in *.
  destruct (other_put w tl (reported (errorHandle w) refused) self'
              (keys (get_objlist w (objlist_of tl)) ++ added) Htl)
    as (Hoi & Hog & Hui & Htr & _).
  fold w1 in Hoi, Hog, Hui, Htr.
  exists self', added, refused, (updateCtx w1),
    (keys (get_objlist w (objlist_of tl))).
  split; [exact Heach|]. split; [exact Hitems|].
  split.
  { unfold uiListCallback. rewrite decide_True by done. by rewrite Hrun. }
  split; [reflexivity|].
  assert (listed w1 tl) as Hl1.
  { unfold listed, w1. rewrite items_put, get_put by done.
    split; [by rewrite Hkeys | by apply Hwf]. }
  assert (listed w1 (other tl)) as Hlo1.
  { unfold listed. rewrite Hoi, Hog. exact Hlo. }
  split.
  { apply (synced_listed _ tl Htl). split; by apply listed_updateCtx. }
  rewrite !items_updateCtx, !get_updateCtx.
  split; [unfold w1; by rewrite get_put|].
  split; [exact Hkeys|].
  split; [unfold w1; by rewrite items_put|].
  split.
  { unfold updateCtx. destruct (ctx w1); unfold w1; cbn [errorHandle with_ctx];
      by rewrite errorHandle_put. }
  split; [exact Hoi|]. split; [exact Hog|].
  split.
  - rewrite <- Hui. unfold updateCtx. by destruct (ctx w1).
  - rewrite <- Htr. unfold updateCtx. by destruct (ctx w1).
Qed.

Lemma filter_all {A} (P : A -> Prop) `{forall x, Decision (P x)} (l : list A) :
  (forall x, x ∈ l -> P x) -> filter P l = l.
Proof.
  induction l as [|a l IH]; intros Hall; [done|].
  rewrite filter_cons_True by (apply Hall; left).
  f_equal. apply IH. intros x Hx. apply Hall. by right.
Qed.

Lemma removeItem_filter (x : string) (items : list string) :
  NoDup items -> removeItem x items = filter (fun k => k <> x) items.
Proof.
  induction items as [|y items IH]; intros Hnd; [done|].
  apply NoDup_cons in Hnd as [Hy Hnd]. cbn [removeItem].
  destruct (decide (x = y)) as [-> | Hne].
  - rewrite filter_cons_False by (intros H; by apply H).
    symmetry. apply filter_all. intros k Hk ->. done.
  - rewrite filter_cons_True by done. by rewrite IH.
Qed.

(** The loop of the 'rem' mode keeps the text list and the registry in
    step. *)
Lemma remove_selected_listed tl l :
  tl = "uiSourceList" \/ tl = "uiTargetList" ->
  forall w, listed w tl ->
  l ⊆ keys (get_objlist w (objlist_of tl)) ->
  NoDup l ->
  exists w',
    remove_selected l tl w = Ok w' /\
    listed w' tl /\
    keys (get_objlist w' (objlist_of tl))
    = filter (fun k => k ∉ l) (keys (get_objlist w (objlist_of tl))) /\
    (forall k, k ∉ l ->
       PyDict.get k (obj (get_objlist w' (objlist_of tl)))
       = PyDict.get k (obj (get_objlist w (objlist_of tl)))) /\
    items_of w' (other tl) = items_of w (other tl) /\
    get_objlist w' (objlist_of (other tl))
    = get_objlist w (objlist_of (other tl)).
Proof.
  intros Htl. induction l as [|x l IH]; intros w [Hitems Hwf] Hsub Hnd.
  { exists w. split; [done|]. split; [done|].
    split; [|done]. symmetry. apply filter_all. intros k _.
    apply not_elem_of_nil. }
  apply NoDup_cons in Hnd as [Hx Hnd]. cbn [remove_selected].
  set (self := get_objlist w (objlist_of tl)) in *.
  assert (x ∈ keys self) as Hin by (apply Hsub; left).
  unfold delObj, PyDict.delitem.
  rewrite (proj2 (mem_true x (obj self)) Hin). cbn [obind].
  rewrite items_set_objlist, Hitems. cbn [obind].
  set (w2 := set_items _ _ _).
  assert (keys (get_objlist w2 (objlist_of tl))
          = filter (fun k => k <> x) (keys self)) as Hk2.
  { unfold w2. rewrite get_set_items, get_set_objlist by done.
    change (keys (with_obj self ?d)) with (PyDict.keys d).
    rewrite <- removeItem_keys. by apply removeItem_filter. }
  assert (listed w2 tl) as Hl2.
  { unfold listed. rewrite Hk2. unfold w2.
    rewrite items_set_items, get_set_items, get_set_objlist by done.
    cbn [obj with_obj]. split.
    - f_equal. by apply removeItem_filter.
    - by apply keys_remove_NoDup. }
  assert (l ⊆ keys (get_objlist w2 (objlist_of tl))) as Hsub2.
  { intros k Hk. rewrite Hk2. apply list_elem_of_filter. split.
    - intros ->. done.
    - apply Hsub. by right. }
  destruct (IH w2 Hl2 Hsub2 Hnd) as (w' & Hrun & Hl' & Hkeys & Hget & Hoi & Hog).
  exists w'. split; [exact Hrun|]. split; [exact Hl'|].
  split; [|split; [|split]].
  - rewrite Hkeys, Hk2, list_filter_filter. apply list_filter_iff.
    intros k. rewrite not_elem_of_cons. tauto.
  - intros k Hk. apply not_elem_of_cons in Hk as [Hne Hk].
    rewrite (Hget k Hk). unfold w2.
    rewrite get_set_items, get_set_objlist by done. cbn [obj with_obj].
    by apply get_remove_ne.
  - rewrite Hoi. unfold w2.
    by rewrite items_set_items_other, items_set_objlist.
  - rewrite Hog. unfold w2.
    by rewrite get_set_items, get_set_objlist_other.
Qed.

(** X11: the 'rem' mode of [uiListCallback], on a selection of distinct
    items of the text list, returns and keeps each text list showing the
    keys of its registry: the selected items are gone from the list and
    from the registry, the items left keep their order and their entries,
    and the other list and its registry are left alone. *)
Theorem uiListCallback_rem sc w tl objselected remlist items :
  synced w ->
  items_of w tl = Ok items ->
  default [] remlist ⊆ items ->
  NoDup (default [] remlist) ->
  exists w',
    uiListCallback sc w "rem" tl objselected remlist = Ok w' /\
    synced w' /\
    items_of w' tl = Ok (filter (fun k => k ∉ default [] remlist) items) /\
    (forall k, k ∉ default [] remlist ->
       PyDict.get k (obj (get_objlist w' (objlist_of tl)))
       = PyDict.get k (obj (get_objlist w (objlist_of tl)))) /\
    items_of w' (other tl) = items_of w (other tl) /\
    get_objlist w' (objlist_of (other tl))
    = get_objlist w (objlist_of (other tl)).
Proof.
  intros Hs Hitems Hsub Hnd.
  assert (tl = "uiSourceList" \/ tl = "uiTargetList") as Htl.
  { unfold items_of in Hitems. repeat case_decide; by auto. }
  apply (synced_listed w tl Htl) in Hs as [Hl Hlo].
  assert (items = keys (get_objlist w (objlist_of tl))) as ->.
  { destruct Hl as [Hl _]. rewrite Hl in Hitems. by inversion Hitems. }
  destruct (remove_selected_listed tl (default [] remlist) Htl w Hl Hsub Hnd)
    as (w' & Hrun & Hl' & Hkeys & Hget & Hoi & Hog).
  exists (updateCtx w').
  assert ((do _ <- items_of w tl;
           match remlist with
           | Some (x :: xs) => remove_selected (x :: xs) tl w
           | _ => Ok w
           end) = Ok w') as Hbody.
  { rewrite Hitems. cbn [obind]. by destruct remlist as [[|x xs]|]. }
  unfold uiListCallback.
  rewrite decide_False by done. rewrite decide_False by done.
  rewrite decide_True by done. rewrite Hbody. cbn [obind].
  split; [done|].
  assert (listed w' (other tl)) as Hlo'.
  { unfold listed. rewrite Hoi, Hog. exact Hlo. }
  split.
  { apply (synced_listed _ tl Htl). split; by apply listed_updateCtx. }
  rewrite !items_updateCtx, !get_updateCtx.
  split; [by rewrite (proj1 Hl'), Hkeys|]. done.
Qed.

(** X12: the 'clr' mode of [uiListCallback] empties the text list and its
    registry, sets the round-robin index back to 0 and leaves the other
    list alone, so each list still shows the keys of its registry; under a
    name that is no text list of the window, the 'clr' and 'rem' modes do
    not return: they raise what handing that name to the text list command
    raises, [KeyError] or the error of Maya. *)
Theorem uiListCallback_clr sc w tl objselected remlist :
  synced w ->
  (tl = "uiSourceList" \/ tl = "uiTargetList" ->
   exists w',
     uiListCallback sc w "clr" tl objselected remlist = Ok w' /\
     synced w' /\
     items_of w' tl = Ok [] /\
     keys (get_objlist w' (objlist_of tl)) = [] /\
     i (get_objlist w' (objlist_of tl)) = 0 /\
     items_of w' (other tl) = items_of w (other tl) /\
     get_objlist w' (objlist_of (other tl))
     = get_objlist w (objlist_of (other tl))) /\
  (tl <> "uiSourceList" -> tl <> "uiTargetList" ->
   uiListCallback sc w "clr" tl objselected remlist
   = Raise (notTextList w tl) /\
   uiListCallback sc w "rem" tl objselected remlist
   = Raise (notTextList w tl)).
Proof.
  intros Hs. split.
  - intros Htl. pose proof Hs as Hs0.
    apply (synced_listed w tl Htl) in Hs as [Hl Hlo].
    unfold uiListCallback.
    rewrite decide_False by done. rewrite decide_True by done.
    rewrite (proj1 Hl). cbn [obind].
    eexists. split; [reflexivity|].
    rewrite !items_updateCtx, !get_updateCtx.
    rewrite !items_set_objlist, !get_set_objlist, !get_set_objlist_other by done.
    rewrite !items_set_items, !items_set_items_other, !get_set_items by done.
    split; [|done].
    apply (synced_listed _ tl Htl). split; apply listed_updateCtx.
    + unfold listed.
      rewrite items_set_objlist, get_set_objlist, items_set_items by done.
      split; [done | apply NoDup_nil_2].
    + unfold listed.
      rewrite items_set_objlist, get_set_objlist_other by done.
      by rewrite items_set_items_other, get_set_items.
  - intros Hs1 Hs2. unfold uiListCallback, items_of.
    rewrite (decide_False (P := tl = "uiSourceList")) by done.
    rewrite (decide_False (P := tl = "uiTargetList")) by done.
    split.
    + rewrite decide_False by done. by rewrite decide_True.
    + rewrite decide_False by done. rewrite decide_False by done.
      by rewrite decide_True.
Qed.

(** On a registry without an error handle [validateObjects] returns, the
    registry as it was, and [True] exactly when the registry is ready. *)
Lemma validateObjects_ready sc self :
  ObjectList.errorHandle self = None ->
  exists b, (validateObjects sc self).2 = Ok (self, b) /\
            (b = true <-> ready sc self).
Proof.
  intros Hh. unfold validateObjects, ready.
  destruct (decide (length (keys self) = 0%nat)) as [Hlen | Hlen].
  { exists false. split; [done|]. split; [done|].
    intros [Hne _]. by destruct (keys self). }
  assert (keys self <> []) as Hne by (intros E; by rewrite E in Hlen).
  assert (Forall (fun k => k ∈ keys self) (keys self)) as Hall
    by (by apply Forall_forall).
  destruct (validate_loop_no_handle sc self (keys self) Hh Hall)
    as [[-> Hlive] | (pre & d & post & Hrefs & _ & Hd & ->)].
  - exists true. cbn [snd obind]. rewrite Hh. split; [done|].
    split; [|done]. intros _. split; [done|].
    by apply Forall_fmap in Hlive.
  - exists false. cbn [snd obind]. split; [done|]. split; [done|].
    intros [_ Hlive].
    assert (Forall (fun r => objExists sc r = true) (ref self <$> keys self))
      as Hrefs_live by (by apply Forall_fmap).
    change (map (ref self) (keys self)) with (ref self <$> keys self) in Hrefs.
    rewrite Hrefs in Hrefs_live. apply Forall_app in Hrefs_live as [_ Hd'].
    apply Forall_cons in Hd' as [Hd' _]. congruence.
Qed.

(** X7: on a registry without an error handle, as the window builds both
    of its registries, [validateObjects] returns and leaves the registry as
    it was; it answers [True] exactly when the registry has a key and every
    stored reference is alive in the scene; the references it hands to
    [cmds.objExists] are a prefix of the stored ones in key order, all of
    them when the answer is [True]. *)
Theorem validateObjects_iff_ready sc self :
  ObjectList.errorHandle self = None ->
  exists seen b,
    validateObjects sc self = (seen, Ok (self, b)) /\
    (b = true <-> ready sc self) /\
    seen `prefix_of` map (ref self) (keys self) /\
    (b = true -> seen = map (ref self) (keys self)).
Proof.
  intros Hh.
  destruct (validateObjects_ready sc self Hh) as (b & Hb & Hiff).
  destruct (validateObjects_no_handle sc self Hh) as [Hempty Hfull].
  destruct (decide (keys self = [])) as [He | Hne].
  - rewrite (Hempty He) in Hb |- *. inversion Hb; subst b.
    exists [], false. split; [done|]. split; [exact Hiff|].
    split; [apply prefix_nil | done].
  - destruct (Hfull Hne) as [[Hv _] | (pre & d & post & Hrefs & _ & _ & Hv)];
      rewrite Hv in Hb |- *; inversion Hb; subst b.
    + eexists _, true. split; [done|]. split; [exact Hiff|]. done.
    + eexists _, false. split; [done|]. split; [exact Hiff|].
      split; [|done]. rewrite Hrefs. exists post. by rewrite <- app_assoc.
Qed.

Lemma hasDuplicate_shared (a b : sp3dObjectList) :
  hasDuplicate a b = true <-> exists k, k ∈ keys a /\ k ∈ keys b.
Proof.
  unfold hasDuplicate. rewrite hasDuplicate_loop_true.
  split; intros (k & A & B); by exists k.
Qed.

(** X13: [genericContextCallback] on registries without an error handle
    returns and leaves both registries and the options alone.  A context is
    built, from the four attributes of the window, only when both
    registries are ready, no key is in both and the argument names one of
    the two contexts; otherwise the context stays what it was, and the
    message names the first failing check: source, then target, then a
    shared key. *)
Theorem genericContextCallback_spec sc w arg0 :
  ObjectList.errorHandle (sourceList w) = None ->
  ObjectList.errorHandle (targetList w) = None ->
  let go := ready sc (sourceList w) /\ ready sc (targetList w) /\
            (forall k, k ∈ keys (sourceList w) -> k ∉ keys (targetList w)) in
  exists w',
    genericContextCallback sc w arg0 = Ok w' /\
    sourceList w' = sourceList w /\ targetList w' = targetList w /\
    uiValues w' = uiValues w /\ transform w' = transform w /\
    (go -> arg0 = "PaintCtx" ->
     ctx w' = Some (handed "PaintCtx" w') /\
     error (errorHandle w') = msg_paint) /\
    (go -> arg0 = "PlaceCtx" ->
     ctx w' = Some (handed "PlaceCtx" w') /\
     error (errorHandle w') = msg_place) /\
    (go -> arg0 <> "PaintCtx" -> arg0 <> "PlaceCtx" -> w' = w) /\
    (~ go -> ctx w' = ctx w) /\
    (~ ready sc (sourceList w) -> error (errorHandle w') = msg_source) /\
    (ready sc (sourceList w) -> ~ ready sc (targetList w) ->
     error (errorHandle w') = msg_target) /\
    (ready sc (sourceList w) -> ready sc (targetList w) ->
     (exists k, k ∈ keys (sourceList w) /\ k ∈ keys (targetList w)) ->
     error (errorHandle w') = msg_both).
Proof.
  intros Hsh Hth go.
  destruct (validateObjects_ready sc (sourceList w) Hsh) as (bs & Hvs & Hbs).
  destruct (validateObjects_ready sc (targetList w) Hth) as (bt & Hvt & Hbt).
  unfold genericContextCallback. rewrite Hvs. cbn [obind fst snd].
  cbn [targetList with_sourceList]. rewrite Hvt. cbn [obind fst snd].
  cbn [sourceList targetList with_sourceList with_targetList].
  assert (with_targetList (with_sourceList w (sourceList w)) (targetList w) = w)
    as -> by (by destruct w).
  pose proof (hasDuplicate_shared (sourceList w) (targetList w)) as Hdup.
  destruct bs; cbn [negb].
  2: { eexists. split; [reflexivity|]. cbn.
       do 4 (split; [reflexivity|]).
       assert (~ ready sc (sourceList w)) as Hn by (intros H; by apply Hbs in H).
       unfold go. repeat split; try tauto. }
  pose proof (proj1 Hbs eq_refl) as Hrs.
  destruct bt; cbn [negb].
  2: { eexists. split; [reflexivity|]. cbn.
       do 4 (split; [reflexivity|]).
       assert (~ ready sc (targetList w)) as Hn by (intros H; by apply Hbt in H).
       unfold go. repeat split; try tauto. }
  pose proof (proj1 Hbt eq_refl) as Hrt.
  destruct (hasDuplicate (sourceList w) (targetList w)) eqn:Hd.
  { eexists. split; [reflexivity|]. cbn.
    do 4 (split; [reflexivity|]).
    apply hasDuplicate_shared in Hd as (k & Hks & Hkt).
    assert (~ go) as Hn by (intros (_ & _ & Hno); by apply (Hno k)).
    repeat split; try tauto. }
  assert (go) as Hgo.
  { split; [done|]. split; [done|]. intros k Hks Hkt.
    assert (hasDuplicate (sourceList w) (targetList w) = true) as Ht
      by (apply hasDuplicate_shared; by exists k).
    congruence. }
  assert (~ exists k, k ∈ keys (sourceList w) /\ k ∈ keys (targetList w)) as Hnd.
  { intros Hex. apply hasDuplicate_shared in Hex. congruence. }
  destruct (decide (arg0 = "PaintCtx")) as [-> | Hpaint].
  { eexists. split; [reflexivity|]. cbn.
    do 4 (split; [reflexivity|]).
    repeat split; try tauto; try done. }
  destruct (decide (arg0 = "PlaceCtx")) as [-> | Hplace].
  { eexists. split; [reflexivity|]. cbn.
    do 4 (split; [reflexivity|]).
    repeat split; try tauto; try done. }
  exists w. split; [reflexivity|].
  do 4 (split; [reflexivity|]).
  repeat split; try tauto; try done.
Qed.


End WindowMore.

Section WindowSamples.
Import ObjectList Samples Window.

Lemma uiListCallback_add_witness :
  exists self' added refused w' items,
    addObj_each garden (get_objlist window0 (objlist_of "uiTargetList"))
      ["tree"; "rig"; "rigShape"] = Ok (self', added, refused) /\
    items_of window0 "uiTargetList" = Ok items /\
    uiListCallback garden window0 "add" "uiTargetList"
      ["tree"; "rig"; "rigShape"] None = Ok w' /\
    w' = updateCtx
           (put window0 "uiTargetList"
              (reported (errorHandle window0) refused) self' (items ++ added)) /\
    synced w' /\
    get_objlist w' (objlist_of "uiTargetList") = self' /\
    keys self' = items ++ added /\
    items_of w' "uiTargetList" = Ok (items ++ added) /\
    errorHandle w' = reported (errorHandle window0) refused /\
    items_of w' (other "uiTargetList") = items_of window0 (other "uiTargetList") /\
    get_objlist w' (objlist_of (other "uiTargetList"))
    = get_objlist window0 (objlist_of (other "uiTargetList")) /\
    uiValues w' = uiValues window0 /\
    transform w' = transform window0.
Proof.
  apply (uiListCallback_add garden window0 "uiTargetList"
           ["tree"; "rig"; "rigShape"] None).
  - repeat split; by_decide.
  - by right.
  - repeat apply Forall_cons_2; [| | |apply Forall_nil_2];
      (split; [reflexivity|]); (split; [by eexists|]);
      (split; [by eexists|]); (split; [by eexists|]);
      intros c Hc; inversion Hc; subst;
      (split; [reflexivity|]); split; by eexists.
Defined.

(** On the sample window: of the three selected nodes the transform [tree]
    is accepted under its shape, [rig] is refused as too complex and
    [rigShape] as already filed; the text list shows the new key last and
    the error handle the last refusal. *)
Example uiListCallback_add_sample :
  exists w',
    uiListCallback garden window0 "add" "uiTargetList"
      ["tree"; "rig"; "rigShape"] None = Ok w' /\
    addObj_each garden (targetList window0) ["tree"; "rig"; "rigShape"]
    = Ok (targetList w', ["treeShape"], [msg_complex; msg_exists]) /\
    uiTargetList w' = ["rigShape"; "treeShape"] /\
    keys (targetList w') = ["rigShape"; "treeShape"] /\
    error (errorHandle w') = msg_exists.
Proof.
  eexists. split; [vm_compute; reflexivity|].
  split; [vm_compute; reflexivity|]. by repeat split.
Qed.

Lemma uiListCallback_rem_witness :
  exists w',
    uiListCallback garden window0 "rem" "uiSourceList" [] (Some ["rockShape"])
    = Ok w' /\
    synced w' /\
    items_of w' "uiSourceList"
    = Ok (filter (fun k => k ∉ ["rockShape"]) ["treeShape"; "rockShape"]) /\
    (forall k, k ∉ ["rockShape"] ->
       PyDict.get k (obj (get_objlist w' (objlist_of "uiSourceList")))
       = PyDict.get k (obj (get_objlist window0 (objlist_of "uiSourceList")))) /\
    items_of w' (other "uiSourceList") = items_of window0 (other "uiSourceList") /\
    get_objlist w' (objlist_of (other "uiSourceList"))
    = get_objlist window0 (objlist_of (other "uiSourceList")).
Proof.
  apply (uiListCallback_rem garden window0 "uiSourceList" []
           (Some ["rockShape"]) ["treeShape"; "rockShape"]).
  - repeat split; by_decide.
  - reflexivity.
  - by_decide.
  - by_decide.
Defined.

Lemma uiListCallback_clr_witness :
  exists w',
    uiListCallback garden window0 "clr" "uiSourceList" [] None = Ok w' /\
    synced w' /\
    items_of w' "uiSourceList" = Ok [] /\
    keys (get_objlist w' (objlist_of "uiSourceList")) = [] /\
    i (get_objlist w' (objlist_of "uiSourceList")) = 0 /\
    items_of w' (other "uiSourceList") = items_of window0 (other "uiSourceList") /\
    get_objlist w' (objlist_of (other "uiSourceList"))
    = get_objlist window0 (objlist_of (other "uiSourceList")).
Proof.
  apply (uiListCallback_clr garden window0 "uiSourceList" [] None).
  - repeat split; by_decide.
  - by left.
Defined.

Lemma validateObjects_iff_ready_witness :
  exists seen b,
    validateObjects garden three = (seen, Ok (three, b)) /\
    (b = true <-> ready garden three) /\
    seen `prefix_of` map (ref three) (keys three) /\
    (b = true -> seen = map (ref three) (keys three)).
Proof. apply (validateObjects_iff_ready garden three). reflexivity. Defined.

Lemma genericContextCallback_spec_witness :
  exists w',
    genericContextCallback garden window0 "PaintCtx" = Ok w' /\
    ctx w' = Some (handed "PaintCtx" w') /\
    error (errorHandle w') = msg_paint.
Proof.
  destruct (genericContextCallback_spec garden window0 "PaintCtx"
              eq_refl eq_refl)
    as (w' & Hrun & _ & _ & _ & _ & Hpaint & _).
  exists w'. split; [exact Hrun|]. apply Hpaint; [|reflexivity].
  split; [|split].
  - split; [discriminate | by_decide].
  - split; [discriminate | by_decide].
  - intros k Hk Hk'. change (k ∈ ["rigShape"]) in Hk'.
    apply list_elem_of_singleton in Hk'. subst k. revert Hk. by_decide.
Defined.


End WindowSamples.
